(** * Fluent surface-mesh loader: a shallow embedding of
      [pyNastran/converters/fluent/fluent_io.py]

    The three functions of the module, [load_fluent_geometry],
    [_create_elements] and [_fill_fluent_case], are rendered as Rocq
    functions.  Python exceptions are values of [exn]; a computation that can
    raise has type [result A]; the loader, which mutates the GUI object while
    it runs, is a function from the GUI state to an outcome and the GUI state
    reached.  Numpy integer arrays are lists of [Z]; float64 arrays are lists
    of rationals [Q] (finite values, exact arithmetic); a two-dimensional
    array carries its second dimension explicitly, as numpy does for an array
    with no rows.  Python dictionaries are [gmap]s. *)

From Stdlib Require Import ZArith QArith Qminmax.
From stdpp Require Import gmap strings list fin_maps sorting pretty.

(* ===================================================================== *)
(** ** Exceptions *)
(* ===================================================================== *)

(** What an [assert cond, msg] carries when it fails. *)
Inductive assert_msg : Type :=
| NoMsg                              (* a bare [assert cond] *)
| MsgShape (nrow ncol : nat)         (* [assert ..., tris.shape] *)
| MsgInt (z : Z)                     (* [assert ..., node_id.min()] *)
| MsgIds (ids : list Z)              (* [assert ..., missing_nodes] *)
| MsgLens (neids nregion : nat).     (* f'neids={..} nregion={..}' *)

Inductive exn : Type :=
| AssertionError (m : assert_msg)
| ValueError (why : string)
| IndexError (why : string)
| ExternalError (why : string).      (* raised by a collaborator *)

Inductive result (A : Type) : Type :=
| Ok (a : A)
| Raise (e : exn).
Arguments Ok {A} a.
Arguments Raise {A} e.

#[global] Instance result_ret : MRet result := @Ok.
#[global] Instance result_bind : MBind result := fun A B k r =>
  match r with
  | Ok a => k a
  | Raise e => Raise e
  end.

Definition assert (cond : bool) (m : assert_msg) : result unit :=
  if cond then Ok tt else Raise (AssertionError m).

Definition is_ok {A} (r : result A) : bool :=
  match r with Ok _ => true | Raise _ => false end.

(* ===================================================================== *)
(** ** Arrays and the numpy operations the module uses *)
(* ===================================================================== *)

(** A 2-D array: [shape1] is [a.shape[1]], [rows a] the rows, so that
    [len(a)] is [length (rows a)]. *)
Record array2 (A : Type) : Type := Array2 { shape1 : nat; rows : list (list A) }.
Arguments Array2 {A} shape1 rows.
Arguments shape1 {A} a.
Arguments rows {A} a.

Definition len2 {A} (a : array2 A) : nat := length (rows a).

(** numpy arrays are rectangular by construction. *)
Definition rectangular {A} (a : array2 A) : Prop :=
  Forall (fun r => length r = shape1 a) (rows a).

#[global] Instance Q_inhabited : Inhabited Q := populate 0%Q.

(** [a[:, i]]; out of range, numpy names the index and the size. *)
Definition getcol {A} `{Inhabited A} (a : array2 A) (i : nat) : result (list A) :=
  if decide (i < shape1 a)%nat
  then Ok ((fun r => r !!! i) <$> rows a)
  else Raise (IndexError ("index " +:+ pretty i +:+
                          " is out of bounds for axis 1 with size " +:+
                          pretty (shape1 a))).

(** [a[:, 2:]] *)
Definition cols_from2 {A} (a : array2 A) : array2 A :=
  Array2 (shape1 a - 2) (drop 2 <$> rows a).

(** [a.ravel()] *)
Definition ravel {A} (a : array2 A) : list A := concat (rows a).

(** [np.hstack] of 1-D arrays; numpy refuses an empty sequence. *)
Definition hstack {A} (parts : list (list A)) : result (list A) :=
  match parts with
  | [] => Raise (ValueError "need at least one array to concatenate")
  | _ => Ok (concat parts)
  end.

(** [np.vstack([a, b])] of two 2-D arrays. *)
Definition vstack {A} (a b : array2 A) : result (array2 A) :=
  if decide (shape1 a = shape1 b)
  then Ok (Array2 (shape1 a) (rows a ++ rows b))
  else Raise (ValueError "all the input array dimensions except for the concatenation axis must match exactly").

(** [a.min()] of an integer array. *)
Definition np_min (a : list Z) : result Z :=
  match a with
  | [] => Raise (ValueError "zero-size array to reduction operation minimum which has no identity")
  | x :: l => Ok (foldr Z.min x l)
  end.

(** [np.unique(a)]: the sorted distinct values. *)
Definition np_unique (a : list Z) : list Z := merge_sort Z.le (remove_dups a).

(** [np.setdiff1d(a, b)]: the sorted distinct values of [a] that are not in [b]. *)
Definition np_setdiff1d (a b : list Z) : list Z := list_difference (np_unique a) b.

(** [a.max(axis=0)] and [a.min(axis=0)] of a float array, unpacked into three
    names: the reduction refuses an array with no rows, the unpacking one
    whose second dimension is not 3. *)
Definition reduce_axis0 (f : Q -> Q -> Q) (a : array2 Q) : result (list Q) :=
  match rows a with
  | [] => Raise (ValueError "zero-size array to reduction operation which has no identity")
  | r :: rs =>
      Ok ((fun j => foldl (fun acc row => f acc (row !!! j)) (r !!! j) rs) <$> seq 0 (shape1 a))
  end.

Definition unpack3 (v : list Q) : result (Q * Q * Q) :=
  match v with
  | [x; y; z] => Ok (x, y, z)
  | _ => Raise (ValueError "wrong number of values to unpack (expected 3)")
  end.

(** [results[:, 0] = v]: numpy broadcasts a one-element [v] and refuses any
    other length that is not the number of rows. *)
Definition set_head {A} (x : A) (r : list A) : list A :=
  match r with
  | [] => []
  | _ :: t => x :: t
  end.

Definition setcol0 {A} (a : array2 A) (v : list A) : result (array2 A) :=
  if decide (shape1 a = 0)%nat
  then Raise (IndexError "index 0 is out of bounds for axis 1 with size 0")
  else if decide (length v = len2 a)
  then Ok (Array2 (shape1 a) (zip_with set_head v (rows a)))
  else match v with
       | [x] => Ok (Array2 (shape1 a) (set_head x <$> rows a))
       | _ => Raise (ValueError "could not broadcast input array")
       end.

(* ===================================================================== *)
(** ** The mesh, the grid handed to the renderer, and the GUI object *)
(* ===================================================================== *)

(** The in-memory mesh returned by the reader: node ids and coordinates, the
    two face tables with rows [(element_id, region_id, node_id...)], the
    declared field titles and the per-element values. *)
Module Fluent.
Record t : Type := Make {
  node_id : list Z;
  xyz : array2 Q;
  titles : list string;
  tris : array2 Z;
  quads : array2 Z;
  results : array2 Q;
}.
End Fluent.

(** The value [_create_elements] calls [n_nodes]: it is produced by
    [create_offset_arrays], ravelled, stacked and handed to
    [build_vtk_geometry], and the module never looks inside it. *)
Record node_stream : Type := NodeStream {
  node_counts : list Z;
  flat_node_indices : list Z;
}.

(** What [build_vtk_geometry] receives. *)
Record packed : Type := Packed {
  nelement_total : nat;
  n_nodes : node_stream;
  cell_types : list Z;
  cell_offsets : list Z;
}.

(** [gui.grid], the renderer's unstructured grid. *)
Record Grid : Type := MkGrid {
  allocated : option (nat * nat);     (* ugrid.Allocate(n, 1000) *)
  points : option (array2 Q);         (* ugrid.SetPoints(points) *)
  cells : option packed;              (* build_vtk_geometry(...) *)
  modified : nat;                     (* ugrid.Modified() calls *)
}.

(** Result objects of the sidebar.  A keyword the call does not pass is
    [None]. *)
Inductive values : Type :=
| IntValues (v : list Z)
| FloatValues (v : list Q).

Inductive result_object : Type :=
| GuiResult (subcase_id : Z) (header title location : string) (scalar : values)
            (data_format colormap uname : option string)
| NormalResult (subcase_id : Z) (header title : string)
               (nlabels labelsize ncolors : Z) (data_format uname : string).

Definition case_entry : Type := result_object * (Z * string).

#[warnings="-register-all"]
Inductive form_entry : Type :=
| FormEntry (name : string) (icase : Z) (children : list form_entry).

Record Gui : Type := MkGui {
  cart3d_fluent_remove : list Z;      (* settings.other_settings *)
  cart3d_fluent_include : list Z;
  nnodes : nat;
  nelements : nat;
  grid : Grid;
  nid_map : gmap Z Z;
  global_axes : option Q;             (* create_global_axes(dim_max) *)
  scalar_bar_visible : bool;
  isubcase_name_map : gmap Z (string * string);
  node_ids : list Z;
  element_ids : list Z;
  finished : option (string * list form_entry * gmap Z case_entry);
                                      (* _finish_results_io2(name, form, cases) *)
}.

Definition set_grid (f : Grid -> Grid) (g : Gui) : Gui :=
  MkGui (cart3d_fluent_remove g) (cart3d_fluent_include g) (nnodes g) (nelements g)
        (f (grid g)) (nid_map g) (global_axes g) (scalar_bar_visible g)
        (isubcase_name_map g) (node_ids g) (element_ids g) (finished g).

Definition set_counts (nn ne : nat) (g : Gui) : Gui :=
  MkGui (cart3d_fluent_remove g) (cart3d_fluent_include g) nn ne
        (grid g) (nid_map g) (global_axes g) (scalar_bar_visible g)
        (isubcase_name_map g) (node_ids g) (element_ids g) (finished g).

Definition set_nid_map (m : gmap Z Z) (g : Gui) : Gui :=
  MkGui (cart3d_fluent_remove g) (cart3d_fluent_include g) (nnodes g) (nelements g)
        (grid g) m (global_axes g) (scalar_bar_visible g)
        (isubcase_name_map g) (node_ids g) (element_ids g) (finished g).

Definition create_global_axes (dim_max : Q) (g : Gui) : Gui :=
  MkGui (cart3d_fluent_remove g) (cart3d_fluent_include g) (nnodes g) (nelements g)
        (grid g) (nid_map g) (Some dim_max) (scalar_bar_visible g)
        (isubcase_name_map g) (node_ids g) (element_ids g) (finished g).

Definition scalar_bar_off (g : Gui) : Gui :=
  MkGui (cart3d_fluent_remove g) (cart3d_fluent_include g) (nnodes g) (nelements g)
        (grid g) (nid_map g) (global_axes g) false
        (isubcase_name_map g) (node_ids g) (element_ids g) (finished g).

Definition set_isubcase_name_map (m : gmap Z (string * string)) (g : Gui) : Gui :=
  MkGui (cart3d_fluent_remove g) (cart3d_fluent_include g) (nnodes g) (nelements g)
        (grid g) (nid_map g) (global_axes g) (scalar_bar_visible g)
        m (node_ids g) (element_ids g) (finished g).

Definition set_ids (nids eids : list Z) (g : Gui) : Gui :=
  MkGui (cart3d_fluent_remove g) (cart3d_fluent_include g) (nnodes g) (nelements g)
        (grid g) (nid_map g) (global_axes g) (scalar_bar_visible g)
        (isubcase_name_map g) nids eids (finished g).

Definition _finish_results_io2 (model_name : string) (form : list form_entry)
    (cases : gmap Z case_entry) (g : Gui) : Gui :=
  MkGui (cart3d_fluent_remove g) (cart3d_fluent_include g) (nnodes g) (nelements g)
        (grid g) (nid_map g) (global_axes g) (scalar_bar_visible g)
        (isubcase_name_map g) (node_ids g) (element_ids g)
        (Some (model_name, form, cases)).

Definition Allocate (n k : nat) (u : Grid) : Grid :=
  MkGrid (Some (n, k)) (points u) (cells u) (modified u).
Definition SetPoints (p : array2 Q) (u : Grid) : Grid :=
  MkGrid (allocated u) (Some p) (cells u) (modified u).
Definition Modified (u : Grid) : Grid :=
  MkGrid (allocated u) (points u) (cells u) (S (modified u)).

(** The six arrays [model.get_area_centroid_normal(tris, quads)] returns. *)
Record derived : Type := Derived {
  tri_area : list Q;
  quad_area : list Q;
  tri_centroid : array2 Q;
  quad_centroid : array2 Q;
  tri_normal : array2 Q;
  quad_normal : array2 Q;
}.

(** The collaborators the module calls and whose code is elsewhere: the
    reader, the GUI's clean-up of the previous geometry (which answers
    whether reading is to be skipped), the geometry derivation and the two
    unit converters. *)
Class Externals : Type := {
  _remove_old_geometry : string -> Gui -> result bool * Gui;
  read_fluent : string -> result Fluent.t;
  get_area_centroid_normal : Fluent.t -> array2 Z -> array2 Z -> result derived;
  convert_length : array2 Q -> string -> string -> result (array2 Q);
  convert_pressure : list Q -> string -> string -> result (list Q);
}.

(* ===================================================================== *)
(** ** Collaborators modelled from the specification *)
(* ===================================================================== *)

(** Modelled from the spec: the region rule of [Fluent.get_filtered_data]
    (the method is in no source file at hand).  Section 4.1: a non-empty
    [regions_to_include] keeps the faces whose region tag is in it and
    [regions_to_remove] is ignored; else a non-empty [regions_to_remove] keeps
    the faces whose tag is not in it; else every face is kept. *)
Definition keep_region (regions_to_remove regions_to_include : list Z) (r : Z) : bool :=
  match regions_to_include with
  | _ :: _ => bool_decide (r ∈ regions_to_include)
  | [] =>
      match regions_to_remove with
      | _ :: _ => bool_decide (r ∉ regions_to_remove)
      | [] => true
      end
  end.

(** A face row is [(element_id, region_id, node_id...)]. *)
Definition element_of (face : list Z) : Z := face !!! 0%nat.
Definition region_of (face : list Z) : Z := face !!! 1%nat.

(** Modelled from the spec: the stable filter of one shape group
    (section 4.1: surviving faces keep their relative order). *)
Definition filter_faces (regions_to_remove regions_to_include : list Z)
    (faces : array2 Z) : array2 Z :=
  Array2 (shape1 faces)
         (filter (fun f => keep_region regions_to_remove regions_to_include (region_of f))
                 (rows faces)).

(** Rows of a per-element array whose element is kept.  Rows that come
    after the last face belong to no element: they are not dropped (section
    3: never silently truncated), so that the length checks downstream meet
    them. *)
Fixpoint select_rows {A} (flags : list bool) (xs : list A) : list A :=
  match flags, xs with
  | b :: flags', x :: xs' =>
      if b then x :: select_rows flags' xs' else select_rows flags' xs'
  | [], xs => xs
  | _ :: _, [] => []
  end.

(** Modelled from the spec: [Fluent.get_filtered_data(regions_to_remove,
    regions_to_include)], absent from the sources.  Sections 3 and 4.1: both
    face tables are filtered by region; the element-id array is the
    quadrilateral ids followed by the triangle ids, the region array and the
    rows of the imported values follow the same order (the values come
    aligned to the same ordering before filtering, section 6). *)
Definition get_filtered_data (model : Fluent.t)
    (regions_to_remove regions_to_include : list Z)
    : list Z * array2 Z * array2 Z * list Z * array2 Q :=
  let keep := keep_region regions_to_remove regions_to_include in
  let quads := filter_faces regions_to_remove regions_to_include (Fluent.quads model) in
  let tris := filter_faces regions_to_remove regions_to_include (Fluent.tris model) in
  let element_id := (element_of <$> rows quads) ++ (element_of <$> rows tris) in
  let region := (region_of <$> rows quads) ++ (region_of <$> rows tris) in
  let flags := (fun f => keep (region_of f))
                 <$> (rows (Fluent.quads model) ++ rows (Fluent.tris model)) in
  let results := Array2 (shape1 (Fluent.results model))
                        (select_rows flags (rows (Fluent.results model))) in
  (element_id, tris, quads, region, results).

(** Modelled from the spec: the node-id to local-index lookup of section 3,
    built once from the node set (positions are 0-based).  An id that is not
    in the node set is rejected before packing, so the value returned for it
    here (the node count) is never used. *)
Definition node_index_map (node_id : list Z) : gmap Z Z :=
  list_to_map (zip node_id (Z.of_nat <$> seq 0 (length node_id))).

Definition local_index (node_id : list Z) (nid : Z) : Z :=
  default (Z.of_nat (length node_id)) (node_index_map node_id !! nid).

(** Modelled from the spec: the running cumulative offsets of section 4.3,
    where each entry is the prior cumulative total plus [d]. *)
Fixpoint running_offsets (prior d : Z) (n : nat) : list Z :=
  match n with
  | O => []
  | S n' => (prior + d)%Z :: running_offsets (prior + d)%Z d n'
  end.

(** Modelled from the spec: [create_offset_arrays(all_nids, element_nodes,
    nelement, cell_type, cell_offset0, dnode)] of
    [pyNastran.gui.utils.vtk.vectorized_geometry], absent from the sources.
    Section 4.3: for a group of [nelement] elements with [dnode] nodes each
    it emits [nelement] node counts [dnode], [nelement] copies of the shape
    code, the running offsets continued from [cell_offset0], and the local
    indices of the group's nodes; the first component is the offset counter
    to carry into the next group.  The caller unpacks four values and ravels
    the second one: that second value holds the node counts together with the
    flat local indices, the two streams the spec lists for the node data. *)
Definition create_offset_arrays (all_nids : list Z) (element_nodes : array2 Z)
    (nelement : nat) (cell_type : Z) (cell_offset0 : Z) (dnode : Z)
    : Z * node_stream * list Z * list Z :=
  let n_nodesi := NodeStream (replicate nelement dnode)
                             (local_index all_nids <$> ravel element_nodes) in
  let cell_typei := replicate nelement cell_type in
  let cell_offseti := running_offsets cell_offset0 dnode nelement in
  ((cell_offset0 + Z.of_nat nelement * dnode)%Z, n_nodesi, cell_typei, cell_offseti).

(** [n_nodesi.ravel()] and [np.hstack(n_nodes_list)] on that value. *)
Definition ravel_stream (s : node_stream) : node_stream := s.

Definition hstack_streams (parts : list node_stream) : result node_stream :=
  match parts with
  | [] => Raise (ValueError "need at least one array to concatenate")
  | _ => Ok (NodeStream (concat (node_counts <$> parts))
                        (concat (flat_node_indices <$> parts)))
  end.

(** Modelled from the spec: [build_vtk_geometry(nelement, ugrid, n_nodes,
    cell_type, cell_offset)], absent from the sources, hands the packed
    connectivity of section 6 to the grid. *)
Definition build_vtk_geometry (nelement : nat) (ugrid : Grid) (n_nodes : node_stream)
    (cell_type cell_offset : list Z) : Grid :=
  MkGrid (allocated ugrid) (points ugrid)
         (Some (Packed nelement n_nodes cell_type cell_offset)) (modified ugrid).



Definition scalar_of (r : result_object) : option values :=
  match r with
  | GuiResult _ _ _ _ scalar _ _ _ => Some scalar
  | NormalResult _ _ _ _ _ _ _ _ => None
  end.

(* ===================================================================== *)
(** ** [_create_elements] *)
(* ===================================================================== *)

(** One [if n: ...] block of [_create_elements]: the group is packed and its
    three arrays are appended to the lists. *)
Definition pack_state : Type := Z * list node_stream * list (list Z) * list (list Z).

Definition pack_group (node_id : list Z) (element_nodes : array2 Z) (n : nat)
    (cell_type dnode : Z) (st : pack_state) : pack_state :=
  let '(cell_offset0, n_nodes_list, cell_type_list, cell_offset_list) := st in
  if bool_decide (n ≠ 0%nat)
  then
    let '(cell_offset0, n_nodesi, cell_typei, cell_offseti) :=
      create_offset_arrays node_id element_nodes n cell_type cell_offset0 dnode in
    (cell_offset0,
     n_nodes_list ++ [ravel_stream n_nodesi],
     cell_type_list ++ [cell_typei],
     cell_offset_list ++ [cell_offseti])
  else st.

(** The Python function returns nothing and fills [ugrid] in place, in its
    last statement; here the filled grid is the value returned, and a raised
    exception leaves the caller with the grid it had. *)
Definition _create_elements (ugrid : Grid) (node_id : list Z) (tris quads : array2 Z)
    : result Grid :=
  let nquad := len2 quads in
  let ntri := len2 tris in
  let nelement_total := (nquad + ntri)%nat in
  let cell_offset0 := 0%Z in
  _ ← assert (bool_decide (shape1 tris = 5%nat)) (MsgShape (len2 tris) (shape1 tris));
  _ ← assert (bool_decide (shape1 quads = 6%nat)) (MsgShape (len2 quads) (shape1 quads));
  let tri_nodes := cols_from2 tris in
  let quad_nodes := cols_from2 quads in
  _ ← assert (bool_decide (shape1 tri_nodes = 3%nat))
             (MsgShape (len2 tri_nodes) (shape1 tri_nodes));
  _ ← assert (bool_decide (shape1 quad_nodes = 4%nat))
             (MsgShape (len2 quad_nodes) (shape1 quad_nodes));
  node_min ← np_min node_id;
  _ ← assert (bool_decide (1 ≤ node_min)%Z) (MsgInt node_min);
  let all_nodes := np_unique (ravel tri_nodes ++ ravel quad_nodes) in
  all_min ← np_min all_nodes;
  _ ← assert (bool_decide (1 ≤ all_min)%Z) (MsgInt all_min);
  let missing_nodes := np_setdiff1d all_nodes node_id in
  _ ← assert (bool_decide (length missing_nodes = 0%nat)) (MsgIds missing_nodes);
  let st := (cell_offset0, [], [], []) in
  (* elem.GetCellType() = 9: vtkQuad *)
  let st := pack_group node_id quad_nodes nquad 9 4 st in
  (* elem.GetCellType() = 5: vtkTriangle *)
  let st := pack_group node_id tri_nodes ntri 5 3 st in
  let '(_, n_nodes_list, cell_type_list, cell_offset_list) := st in
  n_nodes ← hstack_streams n_nodes_list;
  cell_type ← hstack cell_type_list;
  cell_offset ← hstack cell_offset_list;
  mret (build_vtk_geometry nelement_total ugrid n_nodes cell_type cell_offset).

(* ===================================================================== *)
(** ** [_fill_fluent_case] *)
(* ===================================================================== *)

(** The loop [for i, title in enumerate(titles[1:])]: [i] is the running
    index, [rest] what is left of [titles[1:]]. *)
Fixpoint fill_imported (ID itime : Z) (element_ids : list Z) (results : array2 Q)
    (i : nat) (rest : list string)
    (icase : Z) (form : list form_entry) (cases : gmap Z case_entry)
    : result (list form_entry * gmap Z case_entry) :=
  match rest with
  | [] => Ok (form, cases)
  | title :: rest' =>
      result ← getcol results i;
      _ ← assert (bool_decide (length element_ids = length result)) NoMsg;
      let pressure_res :=
        GuiResult ID title title "centroid" (FloatValues result) None None None in
      let cases := <[icase := (pressure_res, (itime, title))]> cases in
      let formi := FormEntry title icase [] in
      fill_imported ID itime element_ids results (S i) rest'
                    (icase + 1)%Z (form ++ [formi]) cases
  end.

(** "adds the sidebar results": the dictionary [cases] passed in is filled
    and returned with the form. *)
Definition _fill_fluent_case (cases : gmap Z case_entry) (ID : Z)
    (node_ids element_ids region : list Z) (results : array2 Q)
    (titles : list string) (normal : array2 Q) (nnodes_array : list Q)
    : result (list form_entry * gmap Z case_entry) :=
  let icase := 0%Z in
  let itime := 0%Z in
  let colormap := "jet" in
  let nid_res := GuiResult ID "NodeID" "NodeID" "node" (IntValues node_ids)
                           None None None in
  let eid_res := GuiResult ID "ElementID" "ElementID" "centroid" (IntValues element_ids)
                           None None None in
  let region_res := GuiResult ID "Region" "Region" "centroid" (IntValues region)
                              None None None in
  let nxyz_res := NormalResult 0 "Normals" "Normals" 2 5 2 "%.1f" "NormalResult" in
  normal0 ← getcol normal 0;
  let nx_res := GuiResult ID "normal_x" "NormalX" "centroid" (FloatValues normal0)
                          (Some "%.3f") (Some colormap) (Some "NormalX") in
  normal1 ← getcol normal 1;
  let ny_res := GuiResult ID "normal_y" "NormalY" "centroid" (FloatValues normal1)
                          (Some "%.3f") (Some colormap) (Some "NormalY") in
  normal2 ← getcol normal 2;
  let nz_res := GuiResult ID "normal_z" "NormalZ" "centroid" (FloatValues normal2)
                          (Some "%.3f") (Some colormap) (Some "NormalZ") in
  let nnodes_res := GuiResult ID "nnodes" "Nnodes" "centroid" (FloatValues nnodes_array)
                              (Some "%.0f") (Some colormap) (Some "Nnodes") in
  _ ← assert (bool_decide (length element_ids = length region))
             (MsgLens (length element_ids) (length region));
  let cases := <[icase := (nid_res, (itime, "NodeID"))]> cases in
  let cases := <[(icase + 1)%Z := (eid_res, (itime, "ElementID"))]> cases in
  let cases := <[(icase + 2)%Z := (region_res, (itime, "Region"))]> cases in
  let cases := <[(icase + 3)%Z := (nxyz_res, (itime, "Normal"))]> cases in
  let cases := <[(icase + 4)%Z := (nx_res, (itime, "NormalX"))]> cases in
  let cases := <[(icase + 5)%Z := (ny_res, (itime, "NormalY"))]> cases in
  let cases := <[(icase + 6)%Z := (nz_res, (itime, "NormalZ"))]> cases in
  let cases := <[(icase + 7)%Z := (nnodes_res, (itime, "Nnodes"))]> cases in
  let form := [
    FormEntry "NodeID" icase [];
    FormEntry "ElementID" (icase + 1) [];
    FormEntry "Region" (icase + 2) [];
    FormEntry "Normal" (icase + 3) [];
    FormEntry "NormalX" (icase + 4) [];
    FormEntry "NormalY" (icase + 5) [];
    FormEntry "NormalZ" (icase + 6) [];
    FormEntry "Nnodes" (icase + 7) []
  ] in
  let icase := (icase + 8)%Z in
  fill_imported ID itime element_ids results 0 (drop 1 titles) icase form cases.

(* ===================================================================== *)
(** ** [FluentIO.load_fluent_geometry] *)
(* ===================================================================== *)

(** The loader runs on the GUI object: a step may change it and may raise,
    and what was changed before an exception stays changed. *)
Definition GuiM (A : Type) : Type := Gui -> result A * Gui.

#[global] Instance GuiM_ret : MRet GuiM := fun A a g => (Ok a, g).
#[global] Instance GuiM_bind : MBind GuiM := fun A B k m g =>
  match m g with
  | (Ok a, g') => k a g'
  | (Raise e, g') => (Raise e, g')
  end.

Definition liftM {A} (r : result A) : GuiM A := fun g => (r, g).
Definition getsM {A} (f : Gui -> A) : GuiM A := fun g => (Ok (f g), g).
Definition modifyM (f : Gui -> Gui) : GuiM unit := fun g => (Ok tt, f g).

(** The names bound by lines 38-90 that the rest of the function reads. *)
Record locals : Type := Locals {
  l_node_id : list Z;
  l_titles : list string;
  l_element_id : list Z;
  l_tris : array2 Z;
  l_quads : array2 Z;
  l_region : list Z;
  l_results : array2 Q;
  l_normal : array2 Q;
  l_centroid : array2 Q;
  l_area : list Q;
  l_nnodes_array : list Q;
  l_nodes : array2 Q;
  l_dim_max : Q;
}.

(** Lines 61-64: the per-element arrays of the two groups, stacked.  The
    node counts are [area*0+4] and [area*0+3], here over finite values;
    float64 gives NaN for an area that is infinite or NaN. *)
Definition stack_groups (out : derived)
    : result (array2 Q * array2 Q * list Q * list Q) :=
  normal ← vstack (quad_normal out) (tri_normal out);
  centroid ← vstack (quad_centroid out) (tri_centroid out);
  area ← hstack [quad_area out; tri_area out];
  nnodes_array ← hstack [(fun a => a * 0 + 4)%Q <$> quad_area out;
                         (fun a => a * 0 + 3)%Q <$> tri_area out];
  mret (normal, centroid, area, nnodes_array).

(** Lines 66-68: the unit conversion of the coordinates and of the first
    column of the values. *)
Definition convert_units `{Externals} (nodes : array2 Q) (results : array2 Q)
    : result (array2 Q * array2 Q) :=
  nodes ← convert_length nodes "m" "in";
  column0 ← getcol results 0;
  column0 ← convert_pressure column0 "Pa" "psi";
  results ← setcol0 results column0;
  mret (nodes, results).

(** Lines 38-90 of [load_fluent_geometry]: reading, filtering, derivation,
    unit conversion, the points of the grid and the bounding box.  The calls
    to the logger are left out: they change nothing else.  The differences
    of line 90 are exact here, where float64 rounds them. *)
Definition load_fluent_geometry_head `{Externals} (fld_filename : string) : GuiM locals :=
  model ← liftM (read_fluent fld_filename);
  let node_id := Fluent.node_id model in
  let nodes := Fluent.xyz model in
  let nnodes := len2 nodes in
  (* support multiple results *)
  let titles := Fluent.titles model in
  regions_to_remove ← getsM cart3d_fluent_remove;
  regions_to_include ← getsM cart3d_fluent_include;
  let '(element_id, tris, quads, region, results) :=
    get_filtered_data model regions_to_remove regions_to_include in
  out ← liftM (get_area_centroid_normal model tris quads);
  '(normal, centroid, area, nnodes_array) ← liftM (stack_groups out);
  '(nodes, results) ← liftM (convert_units nodes results);
  let nelement := length element_id in
  _ ← liftM (assert (bool_decide (length element_id = length region))
                    (MsgLens (length element_id) (length region)));
  _ ← modifyM (set_counts nnodes nelement);
  nelements ← getsM nelements;
  _ ← modifyM (set_grid (Allocate nelements 1000));
  (* assert nodes is not None *)
  _ ← modifyM (set_grid (SetPoints nodes));
  '(xmax, ymax, zmax) ← liftM (reduce_axis0 Qmax nodes ≫= unpack3);
  '(xmin, ymin, zmin) ← liftM (reduce_axis0 Qmin nodes ≫= unpack3);
  let dim_max := Qmax (Qmax (xmax - xmin) (ymax - ymin)) (zmax - zmin) in
  mret (Locals node_id titles element_id tris quads region results
               normal centroid area nnodes_array nodes dim_max).

(** Lines 92-119. *)
Definition load_fluent_geometry_tail (model_name : string) (l : locals) : GuiM unit :=
  _ ← liftM (assert (bool_decide (length (l_node_id l) = length (np_unique (l_node_id l))))
                    NoMsg);
  ugrid ← getsM grid;
  ugrid ← liftM (_create_elements ugrid (l_node_id l) (l_tris l) (l_quads l));
  _ ← modifyM (set_grid (fun _ => ugrid));
  _ ← modifyM (set_nid_map ∅);
  _ ← modifyM (create_global_axes (l_dim_max l));
  _ ← modifyM (set_grid Modified);
  (* loadSTLResults - regions/loads *)
  _ ← modifyM scalar_bar_off;
  let cases : gmap Z case_entry := ∅ in
  _ ← modifyM (set_isubcase_name_map ∅);
  let ID := 1%Z in
  _ ← modifyM (fun g => set_isubcase_name_map (<[ID := ("Fluent", "")]> (isubcase_name_map g)) g);
  '(form, cases) ← liftM (_fill_fluent_case cases ID (l_node_id l) (l_element_id l)
                             (l_region l) (l_results l) (l_titles l) (l_normal l)
                             (l_nnodes_array l));
  _ ← modifyM (set_ids (l_node_id l) (l_element_id l));
  modifyM (_finish_results_io2 model_name form cases).

(** The whole method: nothing is read when the GUI answers that the
    geometry is already there. *)
Definition load_fluent_geometry `{Externals} (fld_filename : string)
    (name : string) (plot : bool) : GuiM unit :=
  let model_name := name in
  skip_reading ← (_remove_old_geometry fld_filename : GuiM bool);
  if (skip_reading : bool) then mret tt
  else
    l ← load_fluent_geometry_head fld_filename;
    load_fluent_geometry_tail model_name l.

(* ===================================================================== *)
(** ** A small mesh and stand-in collaborators, for running the model *)
(* ===================================================================== *)

(** Eight nodes, two quadrilaterals and three triangles, all of region 7,
    with two imported fields after the reserved first title. *)
Definition mesh_2q3t : Fluent.t :=
  Fluent.Make
    [1; 2; 3; 4; 5; 6; 7; 8]%Z
    (Array2 3 [[0; 0; 0]; [1; 0; 0]; [1; 1; 0]; [0; 1; 0];
               [2; 0; 0]; [2; 1; 0]; [3; 0; 0]; [3; 1; 0]]%Q)
    ["ID"; "Pressure"; "Temperature"]
    (Array2 5 [[3; 7; 1; 2; 5]; [4; 7; 2; 5; 6]; [5; 7; 6; 7; 8]]%Z)
    (Array2 6 [[1; 7; 1; 2; 3; 4]; [2; 7; 3; 4; 5; 6]]%Z)
    (Array2 2 [[100; 1]; [200; 2]; [300; 3]; [400; 4]; [500; 5]]%Q).

(** The same mesh with node id 2 repeated. *)
Definition mesh_duplicate_node : Fluent.t :=
  Fluent.Make [1; 2; 2; 4; 5; 6; 7; 8]%Z (Fluent.xyz mesh_2q3t) (Fluent.titles mesh_2q3t)
              (Fluent.tris mesh_2q3t) (Fluent.quads mesh_2q3t) (Fluent.results mesh_2q3t).

Definition scale2 (k : Q) (a : array2 Q) : array2 Q :=
  Array2 (shape1 a) ((fun r : list Q => Qmult k <$> r) <$> rows a).

(** Stand-ins: nothing to clean up, the reader returns the given mesh, unit
    areas and +z normals, and the two converters scale by a fixed factor. *)
Definition stand_in (model : Fluent.t) : Externals := {|
  _remove_old_geometry := fun _ g => (Ok false, g);
  read_fluent := fun _ => Ok model;
  get_area_centroid_normal := fun _ tris quads =>
    Ok (Derived ((fun _ => 1%Q) <$> rows tris)
                ((fun _ => 1%Q) <$> rows quads)
                (Array2 3 ((fun _ => [0; 0; 0]%Q) <$> rows tris))
                (Array2 3 ((fun _ => [0; 0; 0]%Q) <$> rows quads))
                (Array2 3 ((fun _ => [0; 0; 1]%Q) <$> rows tris))
                (Array2 3 ((fun _ => [0; 0; 1]%Q) <$> rows quads)));
  convert_length := fun a _ _ => Ok (scale2 (5000 # 127) a);
  convert_pressure := fun v _ _ => Ok (Qmult (1 # 6895) <$> v);
|}.

Definition empty_grid : Grid := MkGrid None None None 0.

Definition fresh_gui (regions_to_remove regions_to_include : list Z) : Gui :=
  MkGui regions_to_remove regions_to_include 0 0 empty_grid ∅ None true ∅ [] [] None.

(** The grid [_create_elements] makes of the small mesh. *)
Definition grid_2q3t : Grid :=
  MkGrid None None
    (Some (Packed 5
             (NodeStream [4; 4; 3; 3; 3]%Z
                         [0; 1; 2; 3; 2; 3; 4; 5; 0; 1; 4; 1; 4; 5; 5; 6; 7]%Z)
             [9; 9; 5; 5; 5]%Z
             [4; 8; 11; 14; 17]%Z))
    0.

(** The GUI object after the small mesh is loaded with no region list. *)
Definition gui_2q3t : Gui :=
  (@load_fluent_geometry (stand_in mesh_2q3t) "mesh.cel" "main" true (fresh_gui [] [])).2.

(** Ten nodes and a single triangle that refers to node 999. *)
Definition nodes_1_to_10 : list Z := [1; 2; 3; 4; 5; 6; 7; 8; 9; 10]%Z.
Definition tris_with_999 : array2 Z := Array2 5 [[1; 7; 1; 2; 999]]%Z.
Definition no_quads : array2 Z := Array2 6 [].


(** Ten element ids against one imported field of nine rows. *)
Definition ten_ids : list Z := [1; 2; 3; 4; 5; 6; 7; 8; 9; 10]%Z.
Definition ten_regions : list Z := replicate 10 7%Z.
Definition ten_normals : array2 Q := Array2 3 (replicate 10 [0; 0; 1]%Q).
Definition nine_values : array2 Q := Array2 1 (replicate 9 [101325]%Q).

(** The catalog built for the element ids, regions and values of the small
    mesh. *)
Definition catalog_2q3t : list form_entry * gmap Z case_entry :=
  match _fill_fluent_case ∅ 1 (Fluent.node_id mesh_2q3t) [1; 2; 3; 4; 5]%Z
          (replicate 5 7%Z) (Fluent.results mesh_2q3t) (Fluent.titles mesh_2q3t)
          (Array2 3 (replicate 5 [0; 0; 1]%Q)) (replicate 5 4%Q) with
  | Ok out => out
  | Raise _ => ([], ∅)
  end.

(* ===================================================================== *)
(** ** Vocabulary of the statements *)
(* ===================================================================== *)

(** Running sums of a list of counts, and their total. *)
Fixpoint cumsum (prior : Z) (counts : list Z) : list Z :=
  match counts with
  | [] => []
  | c :: rest => (prior + c)%Z :: cumsum (prior + c)%Z rest
  end.

Definition total (counts : list Z) : Z := foldr Z.add 0%Z counts.

(** The node ids the faces refer to, in the order [_create_elements] stacks
    them: [np.hstack([tri_nodes.ravel(), quad_nodes.ravel()])]. *)
Definition referenced (tris quads : array2 Z) : list Z :=
  ravel (cols_from2 tris) ++ ravel (cols_from2 quads).

(** The packed connectivity in closed form: the quadrilateral group, then the
    triangle group. *)
Definition packed_of (node_id : list Z) (tris quads : array2 Z) : packed :=
  let nquad := len2 quads in
  let ntri := len2 tris in
  Packed (nquad + ntri)
    (NodeStream (replicate nquad 4%Z ++ replicate ntri 3%Z)
                ((local_index node_id <$> ravel (cols_from2 quads)) ++
                 (local_index node_id <$> ravel (cols_from2 tris))))
    (replicate nquad 9%Z ++ replicate ntri 5%Z)
    (running_offsets 0 4 nquad ++ running_offsets (Z.of_nat nquad * 4) 3 ntri).

(** The assertions of lines 134-144, all passing. *)
Record checks_pass (node_id : list Z) (tris quads : array2 Z) : Prop := ChecksPass {
  cp_tris : shape1 tris = 5%nat;
  cp_quads : shape1 quads = 6%nat;
  cp_node_min : ∃ m, np_min node_id = Ok m ∧ (1 ≤ m)%Z;
  cp_all_min : ∃ m, np_min (np_unique (referenced tris quads)) = Ok m ∧ (1 ≤ m)%Z;
  cp_missing : np_setdiff1d (np_unique (referenced tris quads)) node_id = [];
}.

(** A mesh that passes the checks of [_create_elements], in plain terms:
    the two tables have the right width, there is a node and every node id
    is positive, there is a face, and every id a face refers to is positive
    and in the node set. *)
Record valid_mesh (node_id : list Z) (tris quads : array2 Z) : Prop := ValidMesh {
  vm_tris : shape1 tris = 5%nat;
  vm_quads : shape1 quads = 6%nat;
  vm_nodes : node_id ≠ [];
  vm_positive : ∀ n, n ∈ node_id → (1 ≤ n)%Z;
  vm_faces : referenced tris quads ≠ [];
  vm_referenced : ∀ r, r ∈ referenced tris quads → (1 ≤ r)%Z ∧ r ∈ node_id;
}.

(** An assertion message names ids with property [P]: it carries at least
    one id, and every id it carries has the property. *)
Definition message_names (P : Z → Prop) (m : assert_msg) : Prop :=
  match m with
  | MsgIds ids => ids ≠ [] ∧ ∀ x, x ∈ ids → P x
  | MsgInt z => P z
  | NoMsg | MsgShape _ _ | MsgLens _ _ => False
  end.


(** The catalog entry the loop builds for an imported field. *)
Definition imported_entry (ID itime : Z) (title : string) (column : list Q) : case_entry :=
  (GuiResult ID title title "centroid" (FloatValues column) None None None, (itime, title)).

(** The eight entries [_fill_fluent_case] stores before the loop. *)
Definition fixed_cases (cases : gmap Z case_entry) (ID : Z)
    (node_ids element_ids region : list Z) (nx ny nz nnodes_array : list Q)
    : gmap Z case_entry :=
  <[7%Z := (GuiResult ID "nnodes" "Nnodes" "centroid" (FloatValues nnodes_array)
                      (Some "%.0f") (Some "jet") (Some "Nnodes"), (0%Z, "Nnodes"))]>
  (<[6%Z := (GuiResult ID "normal_z" "NormalZ" "centroid" (FloatValues nz)
                       (Some "%.3f") (Some "jet") (Some "NormalZ"), (0%Z, "NormalZ"))]>
  (<[5%Z := (GuiResult ID "normal_y" "NormalY" "centroid" (FloatValues ny)
                       (Some "%.3f") (Some "jet") (Some "NormalY"), (0%Z, "NormalY"))]>
  (<[4%Z := (GuiResult ID "normal_x" "NormalX" "centroid" (FloatValues nx)
                       (Some "%.3f") (Some "jet") (Some "NormalX"), (0%Z, "NormalX"))]>
  (<[3%Z := (NormalResult 0 "Normals" "Normals" 2 5 2 "%.1f" "NormalResult",
             (0%Z, "Normal"))]>
  (<[2%Z := (GuiResult ID "Region" "Region" "centroid" (IntValues region)
                       None None None, (0%Z, "Region"))]>
  (<[1%Z := (GuiResult ID "ElementID" "ElementID" "centroid" (IntValues element_ids)
                       None None None, (0%Z, "ElementID"))]>
  (<[0%Z := (GuiResult ID "NodeID" "NodeID" "node" (IntValues node_ids)
                       None None None, (0%Z, "NodeID"))]> cases))))))).

Definition fixed_form : list form_entry :=
  [FormEntry "NodeID" 0 []; FormEntry "ElementID" 1 []; FormEntry "Region" 2 [];
   FormEntry "Normal" 3 []; FormEntry "NormalX" 4 []; FormEntry "NormalY" 5 [];
   FormEntry "NormalZ" 6 []; FormEntry "Nnodes" 7 []].

(** The values stored under an index of the catalog. *)
Definition values_at (cases : gmap Z case_entry) (k : Z) : option values :=
  match cases !! k with
  | Some e => scalar_of e.1
  | None => None
  end.

(** The checks of lines 134-144 in the order the function makes them, and
    what each one raises. *)
Inductive create_elements_outcome (ugrid : Grid) (node_id : list Z) (tris quads : array2 Z)
    : result Grid → Prop :=
| ce_tris_width :
    shape1 tris ≠ 5%nat →
    create_elements_outcome ugrid node_id tris quads
      (Raise (AssertionError (MsgShape (len2 tris) (shape1 tris))))
| ce_quads_width :
    shape1 tris = 5%nat → shape1 quads ≠ 6%nat →
    create_elements_outcome ugrid node_id tris quads
      (Raise (AssertionError (MsgShape (len2 quads) (shape1 quads))))
| ce_no_node why :
    shape1 tris = 5%nat → shape1 quads = 6%nat → node_id = [] →
    create_elements_outcome ugrid node_id tris quads (Raise (ValueError why))
| ce_node_id_below_1 m :
    shape1 tris = 5%nat → shape1 quads = 6%nat →
    np_min node_id = Ok m → (m < 1)%Z →
    create_elements_outcome ugrid node_id tris quads (Raise (AssertionError (MsgInt m)))
| ce_no_face m why :
    shape1 tris = 5%nat → shape1 quads = 6%nat →
    np_min node_id = Ok m → (1 ≤ m)%Z → referenced tris quads = [] →
    create_elements_outcome ugrid node_id tris quads (Raise (ValueError why))
| ce_referenced_below_1 m m' :
    shape1 tris = 5%nat → shape1 quads = 6%nat →
    np_min node_id = Ok m → (1 ≤ m)%Z →
    np_min (np_unique (referenced tris quads)) = Ok m' → (m' < 1)%Z →
    create_elements_outcome ugrid node_id tris quads (Raise (AssertionError (MsgInt m')))
| ce_missing m m' :
    shape1 tris = 5%nat → shape1 quads = 6%nat →
    np_min node_id = Ok m → (1 ≤ m)%Z →
    np_min (np_unique (referenced tris quads)) = Ok m' → (1 ≤ m')%Z →
    np_setdiff1d (np_unique (referenced tris quads)) node_id ≠ [] →
    create_elements_outcome ugrid node_id tris quads
      (Raise (AssertionError
                (MsgIds (np_setdiff1d (np_unique (referenced tris quads)) node_id))))
| ce_packed :
    checks_pass node_id tris quads →
    create_elements_outcome ugrid node_id tris quads
      (Ok (MkGrid (allocated ugrid) (points ugrid) (Some (packed_of node_id tris quads))
                  (modified ugrid))).

(** A triangle table with no row, and node ids that start at 0. *)
Definition no_tris : array2 Z := Array2 5 [].
Definition nodes_from_0 : list Z := [0; 1; 2]%Z.

(** A normal array that lacks its third column. *)
Definition two_column_normals : array2 Q := Array2 2 (replicate 10 [0; 0]%Q).

(** A dictionary that already holds entries under the indices 3 and 100. *)
Definition earlier_cases : gmap Z case_entry :=
  <[100%Z := imported_entry 1 0 "Earlier" []]> (<[3%Z := imported_entry 1 0 "Earlier" []]> ∅).

Definition catalog_over_earlier : list form_entry * gmap Z case_entry :=
  match _fill_fluent_case earlier_cases 1 (Fluent.node_id mesh_2q3t) [1; 2; 3; 4; 5]%Z
          (replicate 5 7%Z) (Fluent.results mesh_2q3t) (Fluent.titles mesh_2q3t)
          (Array2 3 (replicate 5 [0; 0; 1]%Q)) (replicate 5 4%Q) with
  | Ok out => out
  | Raise _ => ([], ∅)
  end.

(** The GUI object after the attempt to load the mesh with the repeated node
    id. *)
Definition gui_after_duplicate : Gui :=
  (@load_fluent_geometry (stand_in mesh_duplicate_node) "mesh.cel" "main" true
                         (fresh_gui [] [])).2.

(** The small mesh with a row of values too few, the names lines 38-90 leave
    for it, the GUI object at that point and the grid after the packing. *)
Definition mesh_short_values : Fluent.t :=
  Fluent.Make (Fluent.node_id mesh_2q3t) (Fluent.xyz mesh_2q3t) (Fluent.titles mesh_2q3t)
              (Fluent.tris mesh_2q3t) (Fluent.quads mesh_2q3t)
              (Array2 2 [[100; 1]; [200; 2]; [300; 3]; [400; 4]]%Q).

Definition no_locals : locals :=
  Locals [] [] [] no_tris no_quads [] (Array2 0 []) (Array2 0 []) (Array2 0 []) [] []
         (Array2 0 []) 0.

Definition locals_short_values : locals :=
  match (@load_fluent_geometry_head (stand_in mesh_short_values) "mesh.cel"
                                    (fresh_gui [] [])).1 with
  | Ok l => l
  | Raise _ => no_locals
  end.

Definition gui_short_values : Gui :=
  (@load_fluent_geometry_head (stand_in mesh_short_values) "mesh.cel" (fresh_gui [] [])).2.

Definition grid_short_values : Grid :=
  match _create_elements (grid gui_short_values) (l_node_id locals_short_values)
          (l_tris locals_short_values) (l_quads locals_short_values) with
  | Ok ugrid => ugrid
  | Raise _ => empty_grid
  end.

(* ===================================================================== *)
(** ** Reasoning about computations that can raise *)
(* ===================================================================== *)

Lemma bind_Ok {A B} (r : result A) (k : A -> result B) (b : B) :
  r ≫= k = Ok b ↔ ∃ a, r = Ok a ∧ k a = Ok b.
Proof.
  destruct r as [a|e]; simpl; split.
  - intros Hk. by exists a.
  - by intros (a' & [= <-] & Hk).
  - intros Hk. discriminate Hk.
  - by intros (a' & Hr & _).
Qed.

Lemma assert_Ok (c : bool) (m : assert_msg) (u : unit) : assert c m = Ok u ↔ c = true.
Proof. destruct c, u; simpl; split; (done || discriminate || eauto). Qed.

Lemma assert_decide_Ok (P : Prop) `{Decision P} (m : assert_msg) (u : unit) :
  assert (bool_decide P) m = Ok u ↔ P.
Proof. rewrite assert_Ok. apply bool_decide_eq_true. Qed.

Lemma assert_decide_true (P : Prop) `{Decision P} (m : assert_msg) :
  P → assert (bool_decide P) m = Ok tt.
Proof. intros HP. by apply assert_decide_Ok. Qed.

Lemma assert_decide_false (P : Prop) `{Decision P} (m : assert_msg) :
  ¬ P → assert (bool_decide P) m = Raise (AssertionError m).
Proof. intros HP. unfold assert. by rewrite bool_decide_eq_false_2. Qed.

(** Peel the successful steps off a computation known to return. *)
Ltac ok_steps H :=
  repeat match type of H with
  | _ ≫= _ = Ok _ =>
      let a := fresh "a" in
      let Ha := fresh "Hstep" in
      apply bind_Ok in H as (a & Ha & H);
      try (rewrite assert_decide_Ok in Ha)
  end.

(* ===================================================================== *)
(** ** Running sums *)
(* ===================================================================== *)

Lemma running_offsets_cumsum prior d n :
  running_offsets prior d n = cumsum prior (replicate n d).
Proof. revert prior. induction n as [|n IH]; intros prior; simpl; [done|]. by rewrite IH. Qed.

Lemma total_replicate n d : total (replicate n d) = (Z.of_nat n * d)%Z.
Proof. induction n as [|n IH]; [done|]. simpl replicate. unfold total in *. simpl. lia. Qed.

Lemma total_app a b : total (a ++ b) = (total a + total b)%Z.
Proof. unfold total. induction a as [|x a IH]; simpl; lia. Qed.

Lemma cumsum_app prior a b :
  cumsum prior (a ++ b) = cumsum prior a ++ cumsum (prior + total a)%Z b.
Proof.
  revert prior. induction a as [|x a IH]; intros prior; simpl.
  - f_equal. unfold total; simpl; lia.
  - rewrite IH. do 3 f_equal. unfold total; simpl; lia.
Qed.

Lemma length_cumsum prior counts : length (cumsum prior counts) = length counts.
Proof. revert prior; induction counts as [|c l IH]; intros; simpl; [done|]. by rewrite IH. Qed.

Lemma cumsum_head prior counts c :
  counts !! 0%nat = Some c → cumsum prior counts !! 0%nat = Some (prior + c)%Z.
Proof. destruct counts; simpl; [done|]. by intros [= ->]. Qed.

Lemma cumsum_step prior counts i c :
  counts !! S i = Some c →
  ∃ o' : Z, cumsum prior counts !! i = Some o' ∧ cumsum prior counts !! S i = Some (o' + c)%Z.
Proof.
  revert prior i. induction counts as [|x l IH]; intros prior i Hc; [done|].
  simpl in Hc. destruct i as [|i].
  - destruct l as [|y l]; [done|]. simpl in Hc. injection Hc as ->.
    exists (prior + x)%Z. by simpl.
  - destruct (IH (prior + x)%Z i Hc) as (o' & H1 & H2).
    exists o'. by simpl.
Qed.

(* ===================================================================== *)
(** ** [_create_elements]: when it returns, and what *)
(* ===================================================================== *)

Lemma np_unique_nil_inv a : np_unique a = [] → a = [].
Proof.
  unfold np_unique. intros Hs.
  assert (Hp := merge_sort_Permutation Z.le (remove_dups a)).
  rewrite Hs in Hp.
  destruct a as [|x a]; [done|].
  assert (x ∈ remove_dups (x :: a)) as Hin by (apply elem_of_remove_dups; left).
  rewrite <- Hp in Hin. by apply elem_of_nil in Hin.
Qed.

Lemma referenced_nonempty tris quads :
  referenced tris quads ≠ [] → (len2 quads + len2 tris)%nat ≠ 0%nat.
Proof.
  unfold referenced, ravel, cols_from2, len2. simpl.
  destruct (rows tris), (rows quads); simpl; try lia. by intros [].
Qed.

Lemma pack_tail ugrid node_id tris quads :
  (len2 quads + len2 tris)%nat ≠ 0%nat →
  (let st := pack_group node_id (cols_from2 tris) (len2 tris) 5 3
               (pack_group node_id (cols_from2 quads) (len2 quads) 9 4 (0%Z, [], [], [])) in
   let '(_, n_nodes_list, cell_type_list, cell_offset_list) := st in
   n_nodes ← hstack_streams n_nodes_list;
   cell_type ← hstack cell_type_list;
   cell_offset ← hstack cell_offset_list;
   mret (build_vtk_geometry (len2 quads + len2 tris) ugrid n_nodes cell_type cell_offset))
  = Ok (MkGrid (allocated ugrid) (points ugrid) (Some (packed_of node_id tris quads))
               (modified ugrid)).
Proof.
  intros Hne. unfold packed_of, pack_group, create_offset_arrays, ravel_stream.
  destruct (len2 quads) as [|nq] eqn:Hq, (len2 tris) as [|nt] eqn:Ht; [lia|..].
  - assert (rows quads = []) as Hrq by (by apply length_zero_iff_nil).
    rewrite bool_decide_eq_false_2 by lia. rewrite bool_decide_eq_true_2 by lia.
    cbn -[running_offsets replicate Z.mul Z.of_nat]. unfold build_vtk_geometry.
    rewrite Hrq. simpl. by rewrite !app_nil_r.
  - assert (rows tris = []) as Hrt by (by apply length_zero_iff_nil).
    rewrite bool_decide_eq_true_2 by lia. rewrite bool_decide_eq_false_2 by lia.
    cbn -[running_offsets replicate Z.mul Z.of_nat]. unfold build_vtk_geometry.
    rewrite Hrt. simpl. by rewrite !app_nil_r.
  - rewrite !bool_decide_eq_true_2 by lia.
    cbn -[running_offsets replicate Z.mul Z.of_nat]. unfold build_vtk_geometry.
    by rewrite !app_nil_r.
Qed.

Lemma create_elements_Ok ugrid node_id tris quads ugrid' :
  _create_elements ugrid node_id tris quads = Ok ugrid' ↔
  checks_pass node_id tris quads ∧
  ugrid' = MkGrid (allocated ugrid) (points ugrid) (Some (packed_of node_id tris quads))
                  (modified ugrid).
Proof.
  unfold _create_elements. split.
  - intros H. ok_steps H.
    assert (referenced tris quads ≠ []) as Hne.
    { intros Hnil. fold (referenced tris quads) in Hstep5. rewrite Hnil in Hstep5.
      discriminate Hstep5. }
    rewrite pack_tail in H by (by apply referenced_nonempty).
    injection H as <-. split; [|done].
    split; try done; [by exists a3 | by exists a5 |].
    by apply length_zero_iff_nil.
  - intros [[Ht Hq (m & Hm & Hm1) (m' & Hm' & Hm1') Hmiss] ->].
    assert (referenced tris quads ≠ []) as Hne.
    { intros Hnil. rewrite Hnil in Hm'. discriminate Hm'. }
    rewrite (assert_decide_true _ _ Ht). cbn [mbind result_bind].
    rewrite (assert_decide_true _ _ Hq). cbn [mbind result_bind].
    assert (shape1 (cols_from2 tris) = 3%nat) as Ht' by (simpl; lia).
    assert (shape1 (cols_from2 quads) = 4%nat) as Hq' by (simpl; lia).
    rewrite (assert_decide_true _ _ Ht'). cbn [mbind result_bind].
    rewrite (assert_decide_true _ _ Hq'). cbn [mbind result_bind].
    rewrite Hm. cbn [mbind result_bind].
    rewrite (assert_decide_true _ _ Hm1). cbn [mbind result_bind].
    fold (referenced tris quads). rewrite Hm'. cbn [mbind result_bind].
    rewrite (assert_decide_true _ _ Hm1'). cbn [mbind result_bind].
    rewrite assert_decide_true by (by rewrite Hmiss). cbn [mbind result_bind].
    by rewrite pack_tail by (by apply referenced_nonempty).
Qed.

(* ===================================================================== *)
(** ** The numpy reductions and set operations *)
(* ===================================================================== *)

Lemma foldr_min_spec (x : Z) (l : list Z) :
  foldr Z.min x l ∈ x :: l ∧ ∀ y, y ∈ x :: l → (foldr Z.min x l ≤ y)%Z.
Proof.
  induction l as [|z l [IHin IHle]]; simpl.
  - split; [left|]. intros y Hy. apply list_elem_of_singleton in Hy. lia.
  - split.
    + destruct (Z.min_spec z (foldr Z.min x l)) as [[_ ->]|[_ ->]].
      * right; left.
      * apply elem_of_cons in IHin as [->|Hin]; [left | right; by right].
    + intros y Hy.
      assert (y = z ∨ y ∈ x :: l) as [->|Hy'].
      { rewrite !elem_of_cons in Hy. rewrite elem_of_cons. tauto. }
      * lia.
      * specialize (IHle y Hy'). lia.
Qed.

Lemma np_min_Ok a m :
  np_min a = Ok m → m ∈ a ∧ ∀ y, y ∈ a → (m ≤ y)%Z.
Proof.
  destruct a as [|x l]; [discriminate|]. intros [= <-]. apply foldr_min_spec.
Qed.

Lemma np_min_nonempty a : a ≠ [] → ∃ m, np_min a = Ok m.
Proof. destruct a; [done|]. intros _. eauto. Qed.

Lemma elem_of_np_unique x a : x ∈ np_unique a ↔ x ∈ a.
Proof.
  unfold np_unique. rewrite merge_sort_Permutation. apply elem_of_remove_dups.
Qed.

Lemma np_unique_nonempty a : a ≠ [] → np_unique a ≠ [].
Proof. intros Ha Hu. by apply Ha, np_unique_nil_inv. Qed.

Lemma elem_of_np_setdiff1d x a b : x ∈ np_setdiff1d a b ↔ x ∈ a ∧ x ∉ b.
Proof.
  unfold np_setdiff1d. by rewrite list_elem_of_difference, elem_of_np_unique.
Qed.

Lemma length_np_unique a : length (np_unique a) = length (remove_dups a).
Proof. unfold np_unique. by rewrite merge_sort_Permutation. Qed.

Lemma length_remove_dups_le (a : list Z) : (length (remove_dups a) ≤ length a)%nat.
Proof.
  induction a as [|x a IH]; simpl; [done|].
  case_decide; simpl; lia.
Qed.

Lemma length_remove_dups_NoDup (a : list Z) :
  length (remove_dups a) = length a ↔ NoDup a.
Proof.
  induction a as [|x a IH]; simpl.
  - split; [constructor | done].
  - rewrite NoDup_cons. case_decide as Hx; simpl.
    + split.
      * intros Hlen. pose proof (length_remove_dups_le a). lia.
      * by intros [Hnx _].
    + split.
      * intros [= Hlen]. split; [done | by apply IH].
      * intros [_ Hnd]. f_equal. by apply IH.
Qed.

(** Line 92 passes exactly when no node id is repeated. *)
Lemma unique_check_NoDup (node_id : list Z) :
  length node_id = length (np_unique node_id) ↔ NoDup node_id.
Proof. rewrite length_np_unique, <- length_remove_dups_NoDup. split; congruence. Qed.

Lemma checks_pass_valid node_id tris quads :
  checks_pass node_id tris quads ↔ valid_mesh node_id tris quads.
Proof.
  split.
  - intros [Ht Hq (m & Hm & Hm1) (m' & Hm' & Hm1') Hmiss].
    apply np_min_Ok in Hm as [Hmin Hmle].
    assert (np_unique (referenced tris quads) ≠ []) as Hne
      by (intros Hnil; rewrite Hnil in Hm'; discriminate Hm').
    apply np_min_Ok in Hm' as [Hmin' Hmle'].
    split; try done.
    + intros ->. by apply elem_of_nil in Hmin.
    + intros n Hn. specialize (Hmle n Hn). lia.
    + intros Hnil. rewrite Hnil in Hne. apply Hne. reflexivity.
    + intros r Hr. split.
      * apply elem_of_np_unique in Hr. specialize (Hmle' r Hr). lia.
      * destruct (decide (r ∈ node_id)) as [|Hnot]; [done|].
        assert (r ∈ np_setdiff1d (np_unique (referenced tris quads)) node_id) as Hin
          by (by rewrite elem_of_np_setdiff1d, elem_of_np_unique).
        rewrite Hmiss in Hin. by apply elem_of_nil in Hin.
  - intros [Ht Hq Hn Hpos Hf Href].
    destruct (np_min_nonempty node_id Hn) as (m & Hm).
    destruct (np_min_nonempty _ (np_unique_nonempty _ Hf)) as (m' & Hm').
    split; try done.
    + exists m. split; [done|]. apply np_min_Ok in Hm as [Hin _]. by apply Hpos.
    + exists m'. split; [done|]. apply np_min_Ok in Hm' as [Hin _].
      rewrite elem_of_np_unique in Hin. by destruct (Href _ Hin).
    + destruct (np_setdiff1d _ _) as [|x l] eqn:Hd; [done|].
      assert (x ∈ np_setdiff1d (np_unique (referenced tris quads)) node_id) as Hin
        by (rewrite Hd; left).
      apply elem_of_np_setdiff1d in Hin as [Hin Hnot].
      rewrite elem_of_np_unique in Hin. destruct Hnot. by destruct (Href _ Hin).
Qed.

Lemma length_ravel_cols (a : array2 Z) (d : nat) :
  rectangular a → shape1 a = (d + 2)%nat →
  length (ravel (cols_from2 a)) = (len2 a * d)%nat.
Proof.
  unfold rectangular, ravel, cols_from2, len2. cbn [rows]. intros Hrect Hs.
  induction Hrect as [|r rs Hr _ IH]; [done|].
  cbn [fmap list_fmap concat length]. rewrite length_app, length_drop, IH. lia.
Qed.

(** The offsets of the packed output are the running sums of its node counts. *)
Lemma packed_of_offsets node_id tris quads :
  cell_offsets (packed_of node_id tris quads)
  = cumsum 0 (node_counts (n_nodes (packed_of node_id tris quads))).
Proof.
  unfold packed_of. cbn [cell_offsets n_nodes node_counts].
  rewrite cumsum_app, total_replicate, !running_offsets_cumsum.
  by rewrite Z.add_0_l.
Qed.

Lemma packed_of_counts node_id tris quads i c :
  node_counts (n_nodes (packed_of node_id tris quads)) !! i = Some c → (c = 4 ∨ c = 3)%Z.
Proof.
  unfold packed_of. cbn [n_nodes node_counts]. intros Hc.
  apply lookup_app_Some in Hc as [Hc|[_ Hc]];
    apply lookup_replicate in Hc as [-> _]; auto.
Qed.

(** C1.  Whenever [_create_elements] hands a packed connectivity to the grid,
    the first cell offset equals the first node count, and every later offset
    exceeds the one before it by the node count of its cell: one increasing
    stream of running sums that goes on across the boundary between the
    quadrilateral and the triangle group.  With two quadrilaterals and three
    triangles the node counts are [4,4,3,3,3] and the offsets
    [4,8,11,14,17]. *)
Theorem cell_offsets_cumulative ugrid node_id tris quads ugrid' :
  _create_elements ugrid node_id tris quads = Ok ugrid' →
  ∃ p, cells ugrid' = Some p ∧
    (∃ c, node_counts (n_nodes p) !! 0%nat = Some c ∧ cell_offsets p !! 0%nat = Some c) ∧
    (∀ i, (0 < i < length (cell_offsets p))%nat →
       ∃ o' o c, cell_offsets p !! (i - 1)%nat = Some o' ∧
                 cell_offsets p !! i = Some o ∧
                 node_counts (n_nodes p) !! i = Some c ∧
                 (o - o' = c)%Z ∧ (o' < o)%Z) ∧
    (len2 quads = 2%nat → len2 tris = 3%nat →
       node_counts (n_nodes p) = [4; 4; 3; 3; 3]%Z ∧
       cell_offsets p = [4; 8; 11; 14; 17]%Z).
Proof.
  intros Hok. apply create_elements_Ok in Hok as [Hchk ->].
  exists (packed_of node_id tris quads). split; [done|].
  rewrite packed_of_offsets.
  split; [|split].
  - apply checks_pass_valid in Hchk. destruct Hchk as [_ _ _ _ Hf _].
    apply referenced_nonempty in Hf.
    destruct (node_counts (n_nodes (packed_of node_id tris quads))) as [|c l] eqn:Hcounts.
    + apply (f_equal length) in Hcounts. unfold packed_of in Hcounts.
      cbn [n_nodes node_counts] in Hcounts.
      rewrite length_app, !length_replicate in Hcounts. simpl in Hcounts. lia.
    + exists c. split; [done|]. simpl. by rewrite Z.add_0_l.
  - intros i [Hi0 Hi]. rewrite length_cumsum in Hi.
    destruct i as [|i]; [lia|].
    destruct (lookup_lt_is_Some_2 _ _ Hi) as [c Hc].
    destruct (cumsum_step 0 _ _ _ Hc) as (o' & Ho' & Ho).
    exists o', (o' + c)%Z, c. replace (S i - 1)%nat with i by lia.
    apply packed_of_counts in Hc as Hc34.
    split_and!; try done; lia.
  - intros Hq Ht. unfold packed_of. cbn [n_nodes node_counts]. by rewrite Hq, Ht.
Qed.

(** C5 (amended).  For a valid mesh with at least one face (rectangular face
    tables that pass the checks of [_create_elements]) the packed
    connectivity is produced, its node counts,
    cell types and cell offsets all have one entry per kept face
    (quadrilaterals plus triangles), and the flat node-index array is as long
    as the node counts add up to. *)
Theorem packed_lengths ugrid node_id tris quads :
  rectangular tris → rectangular quads →
  valid_mesh node_id tris quads →
  ∃ ugrid' p,
    _create_elements ugrid node_id tris quads = Ok ugrid' ∧
    cells ugrid' = Some p ∧
    length (node_counts (n_nodes p)) = (len2 quads + len2 tris)%nat ∧
    length (cell_types p) = (len2 quads + len2 tris)%nat ∧
    length (cell_offsets p) = (len2 quads + len2 tris)%nat ∧
    Z.of_nat (length (flat_node_indices (n_nodes p))) = total (node_counts (n_nodes p)).
Proof.
  intros Hrt Hrq Hvalid.
  eexists _, (packed_of node_id tris quads). split.
  { apply create_elements_Ok. split; [by apply checks_pass_valid | reflexivity]. }
  split; [done|].
  destruct Hvalid as [Ht Hq _ _ _ _].
  rewrite packed_of_offsets, length_cumsum.
  unfold packed_of. cbn [n_nodes node_counts cell_types flat_node_indices].
  rewrite !length_app, !length_replicate, total_app, !total_replicate, !length_fmap.
  repeat split; try done.
  rewrite (length_ravel_cols quads 4), (length_ravel_cols tris 3) by done. lia.
Qed.

(* ===================================================================== *)
(** ** Steps of the loader *)
(* ===================================================================== *)

Lemma GuiM_bind_Ok {A B} (m : GuiM A) (k : A → GuiM B) g a g1 :
  m g = (Ok a, g1) → (m ≫= k) g = k a g1.
Proof. intros Hm. unfold mbind, GuiM_bind. by rewrite Hm. Qed.

Lemma GuiM_bind_Raise {A B} (m : GuiM A) (k : A → GuiM B) g e g1 :
  m g = (Raise e, g1) → (m ≫= k) g = (Raise e, g1).
Proof. intros Hm. unfold mbind, GuiM_bind. by rewrite Hm. Qed.

Lemma GuiM_bind_inv {A B} (m : GuiM A) (k : A → GuiM B) g b g' :
  (m ≫= k) g = (Ok b, g') → ∃ a g1, m g = (Ok a, g1) ∧ k a g1 = (Ok b, g').
Proof.
  unfold mbind, GuiM_bind. destruct (m g) as [[a|e] g1]; [eauto | discriminate].
Qed.





(* ===================================================================== *)
(** ** [_fill_fluent_case]: the loop over the imported titles *)
(* ===================================================================== *)

Lemma getcol_Ok {A} `{Inhabited A} (a : array2 A) i column :
  getcol a i = Ok column ↔ (i < shape1 a)%nat ∧ column = (fun r => r !!! i) <$> rows a.
Proof.
  unfold getcol. case_decide; split.
  - by intros [= <-].
  - by intros [_ ->].
  - discriminate.
  - intros [? _]. lia.
Qed.

Lemma getcol_length {A} `{Inhabited A} (a : array2 A) i column :
  getcol a i = Ok column → length column = len2 a.
Proof. intros [_ ->]%getcol_Ok. by rewrite length_fmap. Qed.

Lemma getcol_in_range {A} `{Inhabited A} (a : array2 A) i :
  (i < shape1 a)%nat → ∃ column, getcol a i = Ok column.
Proof. intros Hi. eexists. by apply getcol_Ok. Qed.

Lemma fill_imported_Ok ID itime element_ids results rest :
  ∀ i icase form cases form' cases',
  fill_imported ID itime element_ids results i rest icase form cases = Ok (form', cases') →
  form' = form ++ imap (fun j title => FormEntry title (icase + Z.of_nat j) []) rest ∧
  (∀ j title, rest !! j = Some title →
     ∃ column, getcol results (i + j) = Ok column ∧
               length element_ids = length column ∧
               cases' !! (icase + Z.of_nat j)%Z = Some (imported_entry ID itime title column)) ∧
  (∀ k, (k < icase ∨ icase + Z.of_nat (length rest) ≤ k)%Z → cases' !! k = cases !! k).
Proof.
  induction rest as [|title rest IH]; intros i icase form cases form' cases' Hok.
  - simpl in Hok. injection Hok as <- <-. rewrite app_nil_r. split_and!; [done| |done].
    intros j t Hj. by rewrite lookup_nil in Hj.
  - cbn [fill_imported] in Hok.
    apply bind_Ok in Hok as (column & Hcol & Hok).
    apply bind_Ok in Hok as ([] & Hlen & Hok).
    apply assert_decide_Ok in Hlen.
    apply IH in Hok as (-> & Hin & Hout). split_and!.
    + rewrite <- app_assoc. cbn [imap app]. do 2 f_equal.
      * f_equal. lia.
      * apply imap_ext. intros j t _. simpl. f_equal. lia.
    + intros [|j] t Hj.
      * injection Hj as ->. exists column. rewrite Nat.add_0_r, Z.add_0_r.
        split_and!; [done..|]. rewrite Hout by lia. by rewrite lookup_insert_eq.
      * destruct (Hin j t Hj) as (c & Hc & Hl & Hcase). exists c.
        replace (i + S j)%nat with (S i + j)%nat by lia.
        replace (icase + Z.of_nat (S j))%Z with (icase + 1 + Z.of_nat j)%Z by lia.
        by split_and!.
    + intros k Hk. rewrite Hout by (cbn [length] in Hk; lia).
      apply lookup_insert_ne. cbn [length] in Hk. lia.
Qed.

(** The loop returns when the values have a column for every remaining title
    and, if there is a title at all, as many rows as there are element ids. *)
Lemma fill_imported_returns ID itime element_ids results rest :
  ∀ i icase form cases,
  (i + length rest ≤ shape1 results)%nat →
  (rest ≠ [] → length element_ids = len2 results) →
  ∃ out, fill_imported ID itime element_ids results i rest icase form cases = Ok out.
Proof.
  induction rest as [|title rest IH]; intros i icase form cases Hcols Hrows.
  - by eexists.
  - cbn [fill_imported]. cbn [length] in Hcols.
    destruct (getcol_in_range results i) as (column & Hcol); [lia|].
    rewrite Hcol. cbn [mbind result_bind].
    rewrite assert_decide_true
      by (rewrite (getcol_length _ _ _ Hcol); by apply Hrows).
    cbn [mbind result_bind]. apply IH; [lia|]. intros _. by apply Hrows.
Qed.

(** It raises a bare assertion error when there is a title and the number of
    rows is not the number of element ids. *)
Lemma fill_imported_mismatch ID itime element_ids results title rest i icase form cases :
  (i < shape1 results)%nat →
  length element_ids ≠ len2 results →
  fill_imported ID itime element_ids results i (title :: rest) icase form cases
  = Raise (AssertionError NoMsg).
Proof.
  intros Hcols Hrows. cbn [fill_imported].
  destruct (getcol_in_range results i) as (column & Hcol); [lia|].
  rewrite Hcol. cbn [mbind result_bind].
  rewrite assert_decide_false; [done|]. by rewrite (getcol_length _ _ _ Hcol).
Qed.

(* ===================================================================== *)
(** ** [_fill_fluent_case]: the whole function *)
(* ===================================================================== *)

Lemma fill_fluent_case_Ok cases ID node_ids element_ids region results titles normal
    nnodes_array form cases' :
  _fill_fluent_case cases ID node_ids element_ids region results titles normal nnodes_array
    = Ok (form, cases') →
  ∃ nx ny nz,
    getcol normal 0 = Ok nx ∧ getcol normal 1 = Ok ny ∧ getcol normal 2 = Ok nz ∧
    length element_ids = length region ∧
    fill_imported ID 0 element_ids results 0 (drop 1 titles) 8 fixed_form
      (fixed_cases cases ID node_ids element_ids region nx ny nz nnodes_array)
    = Ok (form, cases').
Proof.
  unfold _fill_fluent_case. intros Hok.
  apply bind_Ok in Hok as (nx & Hnx & Hok).
  apply bind_Ok in Hok as (ny & Hny & Hok).
  apply bind_Ok in Hok as (nz & Hnz & Hok).
  apply bind_Ok in Hok as ([] & Hlen & Hok).
  apply assert_decide_Ok in Hlen.
  exists nx, ny, nz. by split_and!.
Qed.

Lemma fixed_cases_lookup cases ID node_ids element_ids region nx ny nz nnodes_array k :
  (k < 0 ∨ 8 ≤ k)%Z →
  fixed_cases cases ID node_ids element_ids region nx ny nz nnodes_array !! k = cases !! k.
Proof. intros Hk. unfold fixed_cases. by rewrite !lookup_insert_ne by lia. Qed.

(** C3.  When [_fill_fluent_case] returns, the form lists the catalog in the
    fixed order NodeID, ElementID, Region, Normal (the composite entry),
    NormalX, NormalY, NormalZ, Nnodes, and then one entry per declared title
    from the second one on, in declared order; the cases hold the matching
    result objects under those indices, and the entry of declared title
    [i + 1] carries column [i] of the imported values (the first declared
    title is skipped). *)
Theorem field_catalog_order cases ID node_ids element_ids region results titles normal
    nnodes_array form cases' :
  _fill_fluent_case cases ID node_ids element_ids region results titles normal nnodes_array
    = Ok (form, cases') →
  form = [FormEntry "NodeID" 0 []; FormEntry "ElementID" 1 []; FormEntry "Region" 2 [];
          FormEntry "Normal" 3 []; FormEntry "NormalX" 4 []; FormEntry "NormalY" 5 [];
          FormEntry "NormalZ" 6 []; FormEntry "Nnodes" 7 []]
         ++ imap (fun i title => FormEntry title (8 + Z.of_nat i) []) (drop 1 titles) ∧
  (∃ nx ny nz,
     getcol normal 0 = Ok nx ∧ getcol normal 1 = Ok ny ∧ getcol normal 2 = Ok nz ∧
     cases' !! 0%Z = Some (GuiResult ID "NodeID" "NodeID" "node" (IntValues node_ids)
                                     None None None, (0%Z, "NodeID")) ∧
     cases' !! 1%Z = Some (GuiResult ID "ElementID" "ElementID" "centroid"
                                     (IntValues element_ids) None None None,
                           (0%Z, "ElementID")) ∧
     cases' !! 2%Z = Some (GuiResult ID "Region" "Region" "centroid" (IntValues region)
                                     None None None, (0%Z, "Region")) ∧
     cases' !! 3%Z = Some (NormalResult 0 "Normals" "Normals" 2 5 2 "%.1f" "NormalResult",
                           (0%Z, "Normal")) ∧
     cases' !! 4%Z = Some (GuiResult ID "normal_x" "NormalX" "centroid" (FloatValues nx)
                                     (Some "%.3f") (Some "jet") (Some "NormalX"),
                           (0%Z, "NormalX")) ∧
     cases' !! 5%Z = Some (GuiResult ID "normal_y" "NormalY" "centroid" (FloatValues ny)
                                     (Some "%.3f") (Some "jet") (Some "NormalY"),
                           (0%Z, "NormalY")) ∧
     cases' !! 6%Z = Some (GuiResult ID "normal_z" "NormalZ" "centroid" (FloatValues nz)
                                     (Some "%.3f") (Some "jet") (Some "NormalZ"),
                           (0%Z, "NormalZ")) ∧
     cases' !! 7%Z = Some (GuiResult ID "nnodes" "Nnodes" "centroid"
                                     (FloatValues nnodes_array)
                                     (Some "%.0f") (Some "jet") (Some "Nnodes"),
                           (0%Z, "Nnodes"))) ∧
  (∀ i title, titles !! S i = Some title →
     ∃ column, getcol results i = Ok column ∧
       cases' !! (8 + Z.of_nat i)%Z
       = Some (GuiResult ID title title "centroid" (FloatValues column) None None None,
               (0%Z, title))).
Proof.
  intros Hok. apply fill_fluent_case_Ok in Hok as (nx & ny & nz & Hnx & Hny & Hnz & _ & Hok).
  apply fill_imported_Ok in Hok as (-> & Hin & Hout). split_and!.
  - done.
  - exists nx, ny, nz. unfold fixed_cases in Hout.
    split_and!; try done; rewrite Hout by lia; by simplify_map_eq.
  - intros i title Hi.
    assert (drop 1 titles !! i = Some title) as Hi' by (by rewrite lookup_drop).
    destruct (Hin i title Hi') as (column & Hcol & _ & Hcase). by exists column.
Qed.

(** C6.  With a normal array of three columns and a column of values for
    every imported title, [_fill_fluent_case] raises an assertion error when
    the element-id array and the region array differ in length, and when
    there is an imported field and the values do not have one row per element
    id (ten element ids against nine rows, say); in every other case it
    returns. *)
Theorem field_length_mismatch_rejected cases ID node_ids element_ids region results titles
    normal nnodes_array :
  (3 ≤ shape1 normal)%nat →
  (length (drop 1 titles) ≤ shape1 results)%nat →
  let outcome := _fill_fluent_case cases ID node_ids element_ids region results titles
                                   normal nnodes_array in
  (length element_ids ≠ length region →
     outcome = Raise (AssertionError (MsgLens (length element_ids) (length region)))) ∧
  (length element_ids = length region → drop 1 titles ≠ [] →
     length element_ids ≠ len2 results →
     outcome = Raise (AssertionError NoMsg)) ∧
  (length element_ids = length region →
     (drop 1 titles ≠ [] → length element_ids = len2 results) →
     ∃ out, outcome = Ok out).
Proof.
  intros Hnormal Hcols outcome. subst outcome. unfold _fill_fluent_case.
  destruct (getcol_in_range normal 0) as (nx & ->); [lia|].
  destruct (getcol_in_range normal 1) as (ny & ->); [lia|].
  destruct (getcol_in_range normal 2) as (nz & ->); [lia|].
  cbn [mbind result_bind]. split_and!.
  - intros Hne. by rewrite assert_decide_false.
  - intros Heq Htitles Hrows. rewrite assert_decide_true by done. cbn [mbind result_bind].
    destruct (drop 1 titles) as [|title rest]; [done|].
    apply fill_imported_mismatch; [cbn [length] in Hcols; lia | done].
  - intros Heq Hrows. rewrite assert_decide_true by done. cbn [mbind result_bind].
    by apply fill_imported_returns.
Qed.

(* ===================================================================== *)
(** ** The region filter *)
(* ===================================================================== *)

Lemma filter_all {A} (P : A → Prop) `{∀ x, Decision (P x)} (l : list A) :
  (∀ x, P x) → filter P l = l.
Proof.
  intros HP. induction l as [|x l IH]; [done|].
  rewrite filter_cons_True by done. by rewrite IH.
Qed.

Lemma filter_faces_include regions_to_remove regions_to_include faces :
  regions_to_include ≠ [] →
  rows (filter_faces regions_to_remove regions_to_include faces)
  = filter (fun f => region_of f ∈ regions_to_include) (rows faces).
Proof.
  intros Hne. unfold filter_faces. cbn [rows].
  apply list_filter_iff. intros f. unfold keep_region.
  destruct regions_to_include; [done|]. apply bool_decide_spec.
Qed.

Lemma filter_faces_noop faces : filter_faces [] [] faces = faces.
Proof.
  destruct faces as [n rs]. unfold filter_faces. cbn [rows shape1 keep_region].
  f_equal. by apply filter_all.
Qed.

(** C8.  The region filter, as the specification describes it: with a
    non-empty [regions_to_include] the triangles and the quadrilaterals kept
    are exactly the faces whose region tag is in that list, in their original
    order, whatever [regions_to_remove] holds; with both lists empty the two
    face tables come back as they were. *)
Theorem region_filter_precedence (model : Fluent.t)
    (regions_to_remove regions_to_include : list Z) :
  let '(_, tris, quads, _, _) :=
    get_filtered_data model regions_to_remove regions_to_include in
  (regions_to_include ≠ [] →
     rows tris = filter (fun f => region_of f ∈ regions_to_include)
                        (rows (Fluent.tris model)) ∧
     rows quads = filter (fun f => region_of f ∈ regions_to_include)
                         (rows (Fluent.quads model))) ∧
  (regions_to_include = [] → regions_to_remove = [] →
     tris = Fluent.tris model ∧ quads = Fluent.quads model).
Proof.
  unfold get_filtered_data. cbv zeta. split.
  - intros Hne. split; by apply filter_faces_include.
  - intros -> ->. split; apply filter_faces_noop.
Qed.

(* ===================================================================== *)
(** ** Inverting a load that returned *)
(* ===================================================================== *)

Lemma liftM_Ok {A} (r : result A) g a g1 :
  liftM r g = (Ok a, g1) ↔ r = Ok a ∧ g1 = g.
Proof. unfold liftM. split; [by intros [= -> ->] | by intros [-> ->]]. Qed.

Lemma getsM_Ok {A} (f : Gui → A) g a g1 :
  getsM f g = (Ok a, g1) ↔ a = f g ∧ g1 = g.
Proof. unfold getsM. split; [by intros [= -> ->] | by intros [-> ->]]. Qed.

Lemma modifyM_Ok (f : Gui → Gui) g u g1 :
  modifyM f g = (Ok u, g1) ↔ g1 = f g.
Proof. unfold modifyM. destruct u. split; [by intros [= ->] | by intros ->]. Qed.

(** One step of a load that returned: [lift_step] for a step that may
    raise, [state_step] for a read or a write of the GUI object. *)
Tactic Notation "lift_step" hyp(H) "as" simple_intropattern(a) ident(Hs) :=
  let g := fresh "g" in
  apply GuiM_bind_inv in H as (a & g & Hs & H);
  apply liftM_Ok in Hs as [Hs ->].

Ltac state_step H :=
  let a := fresh "a" in
  let g := fresh "g" in
  let Hs := fresh "Hs" in
  apply GuiM_bind_inv in H as (a & g & Hs & H);
  first [ apply getsM_Ok in Hs as [-> ->] | apply modifyM_Ok in Hs as -> ].

Section Loader.
Context `{E : Externals}.

Lemma head_Ok fld_filename g l g1 :
  load_fluent_geometry_head fld_filename g = (Ok l, g1) →
  ∃ model out results0,
    read_fluent fld_filename = Ok model ∧
    get_filtered_data model (cart3d_fluent_remove g) (cart3d_fluent_include g)
      = (l_element_id l, l_tris l, l_quads l, l_region l, results0) ∧
    get_area_centroid_normal model (l_tris l) (l_quads l) = Ok out ∧
    stack_groups out = Ok (l_normal l, l_centroid l, l_area l, l_nnodes_array l) ∧
    convert_units (Fluent.xyz model) results0 = Ok (l_nodes l, l_results l) ∧
    l_node_id l = Fluent.node_id model ∧
    l_titles l = Fluent.titles model ∧
    length (l_element_id l) = length (l_region l) ∧
    g1 = set_grid (SetPoints (l_nodes l))
           (set_grid (Allocate (length (l_element_id l)) 1000)
              (set_counts (len2 (Fluent.xyz model)) (length (l_element_id l)) g)).
Proof.
  unfold load_fluent_geometry_head. intros H.
  lift_step H as model Hread. do 2 state_step H.
  destruct (get_filtered_data _ _ _) as [[[[element_id tris] quads] region] results0] eqn:Hf.
  lift_step H as out Hout.
  lift_step H as [[[normal centroid] area] nnodes_array] Hstack.
  lift_step H as [nodes results] Hunits.
  lift_step H as [] Hlen. apply assert_decide_Ok in Hlen.
  do 4 state_step H.
  lift_step H as [[xmax ymax] zmax] Hmax.
  lift_step H as [[xmin ymin] zmin] Hmin.
  injection H as <- <-. cbn [l_element_id l_tris l_quads l_region l_normal l_centroid
    l_area l_nnodes_array l_nodes l_results l_node_id l_titles].
  exists model, out, results0. by split_and!.
Qed.

Lemma tail_Ok model_name l g u g' :
  load_fluent_geometry_tail model_name l g = (Ok u, g') →
  NoDup (l_node_id l) ∧
  ∃ ugrid' form cases,
    _create_elements (grid g) (l_node_id l) (l_tris l) (l_quads l) = Ok ugrid' ∧
    _fill_fluent_case ∅ 1 (l_node_id l) (l_element_id l) (l_region l) (l_results l)
                      (l_titles l) (l_normal l) (l_nnodes_array l) = Ok (form, cases) ∧
    grid g' = Modified ugrid' ∧
    finished g' = Some (model_name, form, cases) ∧
    node_ids g' = l_node_id l ∧
    element_ids g' = l_element_id l.
Proof.
  unfold load_fluent_geometry_tail. intros H.
  lift_step H as [] Hunique. apply assert_decide_Ok, unique_check_NoDup in Hunique.
  state_step H. lift_step H as ugrid' Hcreate.
  do 7 state_step H. lift_step H as [form cases] Hfill.
  state_step H. apply modifyM_Ok in H as ->.
  split; [done|]. exists ugrid', form, cases. by split_and!.
Qed.

Lemma load_Ok fld_filename name plot g g0 u g' :
  _remove_old_geometry fld_filename g = (Ok false, g0) →
  load_fluent_geometry fld_filename name plot g = (Ok u, g') →
  ∃ l g1, load_fluent_geometry_head fld_filename g0 = (Ok l, g1) ∧
          load_fluent_geometry_tail name l g1 = (Ok u, g').
Proof.
  unfold load_fluent_geometry. intros Hskip H.
  apply GuiM_bind_inv in H as (skip & g0' & Hskip' & H).
  rewrite Hskip in Hskip'. injection Hskip' as <- <-.
  apply GuiM_bind_inv in H as (l & g1 & Hhead & Htail). eauto.
Qed.
End Loader.

(* ===================================================================== *)
(** ** Stacking and unit conversion *)
(* ===================================================================== *)

Lemma vstack_Ok {A} (a b c : array2 A) :
  vstack a b = Ok c → rows c = rows a ++ rows b.
Proof. unfold vstack. case_decide; [by intros [= <-] | discriminate]. Qed.

Lemma stack_groups_Ok out normal centroid area nnodes_array :
  stack_groups out = Ok (normal, centroid, area, nnodes_array) →
  rows normal = rows (quad_normal out) ++ rows (tri_normal out) ∧
  rows centroid = rows (quad_centroid out) ++ rows (tri_centroid out) ∧
  area = quad_area out ++ tri_area out ∧
  nnodes_array = ((fun a => a * 0 + 4)%Q <$> quad_area out) ++
                 ((fun a => a * 0 + 3)%Q <$> tri_area out).
Proof.
  unfold stack_groups. intros H.
  apply bind_Ok in H as (n & Hn & H). apply bind_Ok in H as (c & Hc & H).
  cbn [hstack mbind result_bind mret result_ret concat] in H.
  injection H as <- <- <- <-. rewrite !app_nil_r.
  split_and!; [by apply vstack_Ok | by apply vstack_Ok | done | done].
Qed.

Lemma set_head_lookup {A} `{Inhabited A} (x : A) (r : list A) i :
  (0 < i)%nat → set_head x r !!! i = r !!! i.
Proof. destruct r as [|y t], i as [|i]; simpl; (done || lia). Qed.

Lemma set_head_lookup_0 {A} `{Inhabited A} (x : A) (r : list A) :
  r ≠ [] → set_head x r !!! 0%nat = x.
Proof. by destruct r. Qed.

Lemma zip_set_head_column {A} `{Inhabited A} (v : list A) (rs : list (list A)) i :
  length v = length rs → (0 < i)%nat →
  (fun r => r !!! i) <$> zip_with set_head v rs = (fun r => r !!! i) <$> rs.
Proof.
  revert rs. induction v as [|x v IH]; intros [|r rs] Hlen Hi; try done.
  cbn [zip_with fmap list_fmap]. f_equal.
  - by apply (set_head_lookup x r i).
  - apply IH; [by injection Hlen | done].
Qed.

Lemma zip_set_head_column_0 {A} `{Inhabited A} (v : list A) (rs : list (list A)) :
  length v = length rs → Forall (fun r => r ≠ []) rs →
  (fun r => r !!! 0%nat) <$> zip_with set_head v rs = v.
Proof.
  revert rs. induction v as [|x v IH]; intros [|r rs] Hlen Hne; try done.
  apply Forall_cons in Hne as [Hr Hrs].
  cbn [zip_with fmap list_fmap]. f_equal.
  - by apply set_head_lookup_0.
  - apply IH; [by injection Hlen | done].
Qed.

(** [results[:, 0] = v] leaves every other column as it was, and puts [v]
    in column 0 when [v] has one value per row. *)
Lemma setcol0_other_columns (a a' : array2 Q) v i :
  setcol0 a v = Ok a' → (0 < i)%nat → getcol a' i = getcol a i.
Proof.
  unfold setcol0. intros H Hi. case_decide; [discriminate|].
  unfold getcol. case_decide as Hlen.
  - injection H as <-. cbn [shape1 rows]. case_decide; [|done].
    by rewrite zip_set_head_column.
  - destruct v as [|x [|??]]; try discriminate. injection H as <-.
    cbn [shape1 rows]. case_decide; [|done]. f_equal.
    rewrite <- list_fmap_compose. apply list_fmap_ext. intros _ r _.
    by apply (set_head_lookup x r i).
Qed.

Lemma setcol0_column_0 (a a' : array2 Q) v :
  setcol0 a v = Ok a' → rectangular a → length v = len2 a → getcol a' 0 = Ok v.
Proof.
  unfold setcol0, rectangular, len2. intros H Hrect Hlen. case_decide as Hs; [discriminate|].
  rewrite decide_True in H by done. injection H as <-.
  unfold getcol. cbn [shape1 rows]. rewrite decide_True by lia. f_equal.
  apply zip_set_head_column_0; [done|].
  eapply Forall_impl; [exact Hrect|]. intros r Hr ->. simpl in Hr. lia.
Qed.

Lemma select_rows_Forall {A} (P : A → Prop) flags (xs : list A) :
  Forall P xs → Forall P (select_rows flags xs).
Proof.
  revert xs. induction flags as [|b flags IH]; intros [|x xs] Hxs; simpl; try done.
  apply Forall_cons in Hxs as [Hx Hxs]. destruct b; [constructor|]; auto.
Qed.

Section Units.
Context `{E : Externals}.

Lemma convert_units_Ok nodes results nodes' results' :
  convert_units nodes results = Ok (nodes', results') →
  convert_length nodes "m" "in" = Ok nodes' ∧
  ∃ column0 psi,
    getcol results 0 = Ok column0 ∧
    convert_pressure column0 "Pa" "psi" = Ok psi ∧
    setcol0 results psi = Ok results'.
Proof.
  unfold convert_units. intros H.
  apply bind_Ok in H as (n & Hn & H). apply bind_Ok in H as (c & Hc & H).
  apply bind_Ok in H as (p & Hp & H). apply bind_Ok in H as (r & Hr & H).
  injection H as <- <-. eauto 10.
Qed.
End Units.

(* ===================================================================== *)
(** ** The catalog of a load *)
(* ===================================================================== *)

(** Every entry of the catalog built from an empty dictionary: the eight
    fixed ones under 0..7, then the imported ones. *)
Lemma catalog_entries ID node_ids element_ids region results titles normal nnodes_array
    form cases k e :
  _fill_fluent_case ∅ ID node_ids element_ids region results titles normal nnodes_array
    = Ok (form, cases) →
  cases !! k = Some e →
  ∃ nx ny nz,
    getcol normal 0 = Ok nx ∧ getcol normal 1 = Ok ny ∧ getcol normal 2 = Ok nz ∧
    (((0 ≤ k < 8)%Z ∧
      fixed_cases ∅ ID node_ids element_ids region nx ny nz nnodes_array !! k = Some e) ∨
     (∃ i title column,
        k = (8 + Z.of_nat i)%Z ∧ titles !! S i = Some title ∧
        getcol results i = Ok column ∧ e = imported_entry ID 0 title column)).
Proof.
  intros Hok Hk.
  apply fill_fluent_case_Ok in Hok as (nx & ny & nz & Hnx & Hny & Hnz & _ & Hok).
  apply fill_imported_Ok in Hok as (_ & Hin & Hout).
  exists nx, ny, nz. split_and!; [done..|].
  destruct (decide (k < 8)%Z) as [Hlt|Hge].
  - left. rewrite Hout in Hk by lia. split; [|done].
    destruct (decide (0 ≤ k)%Z); [lia|].
    rewrite fixed_cases_lookup in Hk by lia. by rewrite lookup_empty in Hk.
  - right. destruct (decide (k < 8 + Z.of_nat (length (drop 1 titles)))%Z) as [Hlt|Hge'].
    + set (i := Z.to_nat (k - 8)).
      destruct (lookup_lt_is_Some_2 (drop 1 titles) i) as [title Ht]; [lia|].
      destruct (Hin i title Ht) as (column & Hcol & _ & Hcase).
      replace (8 + Z.of_nat i)%Z with k in Hcase by lia.
      exists i, title, column. rewrite lookup_drop in Ht.
      split_and!; [lia | done | done | congruence].
    + rewrite Hout in Hk by lia.
      rewrite fixed_cases_lookup in Hk by lia. by rewrite lookup_empty in Hk.
Qed.

Lemma catalog_fixed ID node_ids element_ids region results titles normal nnodes_array
    form cases :
  _fill_fluent_case ∅ ID node_ids element_ids region results titles normal nnodes_array
    = Ok (form, cases) →
  ∃ nx ny nz,
    getcol normal 0 = Ok nx ∧ getcol normal 1 = Ok ny ∧ getcol normal 2 = Ok nz ∧
    ∀ k, (0 ≤ k < 8)%Z →
      cases !! k = fixed_cases ∅ ID node_ids element_ids region nx ny nz nnodes_array !! k.
Proof.
  intros Hok.
  apply fill_fluent_case_Ok in Hok as (nx & ny & nz & Hnx & Hny & Hnz & _ & Hok).
  apply fill_imported_Ok in Hok as (_ & _ & Hout).
  exists nx, ny, nz. split_and!; [done..|]. intros k Hk. apply Hout. lia.
Qed.

Lemma catalog_imported ID node_ids element_ids region results titles normal nnodes_array
    form cases i title :
  _fill_fluent_case ∅ ID node_ids element_ids region results titles normal nnodes_array
    = Ok (form, cases) →
  titles !! S i = Some title →
  ∃ column, getcol results i = Ok column ∧
            cases !! (8 + Z.of_nat i)%Z = Some (imported_entry ID 0 title column).
Proof.
  intros Hok Hi.
  apply fill_fluent_case_Ok in Hok as (nx & ny & nz & _ & _ & _ & _ & Hok).
  apply fill_imported_Ok in Hok as (_ & Hin & _).
  assert (drop 1 titles !! i = Some title) as Hi' by (by rewrite lookup_drop).
  destruct (Hin i title Hi') as (column & Hcol & _ & Hcase). eauto.
Qed.


Lemma get_filtered_data_rectangular model regions_to_remove regions_to_include :
  rectangular (Fluent.results model) →
  rectangular (get_filtered_data model regions_to_remove regions_to_include).2.
Proof. unfold get_filtered_data, rectangular. cbn. apply select_rows_Forall. Qed.

Section Load.
Context `{E : Externals}.

(** Up to the bounding box the loader never touches the cells of the grid
    nor the results handed to the browser, whether it raises or not. *)
Lemma head_frame fld_filename g outcome g1 :
  load_fluent_geometry_head fld_filename g = (outcome, g1) →
  cells (grid g1) = cells (grid g) ∧ finished g1 = finished g.
Proof.
  unfold load_fluent_geometry_head, mbind, GuiM_bind, liftM, getsM, modifyM, mret, GuiM_ret.
  intros H. repeat case_match; simplify_eq; done.
Qed.

(** C2.  In a load that returns, the element ids are the ids of the kept
    quadrilaterals followed by those of the kept triangles; the area,
    centroid, normal and node-count arrays are each the quadrilateral part
    followed by the triangle part, and the catalog carries the normal
    components and the node counts so stacked; the packed connectivity
    lists the quadrilaterals, then the triangles, in its node counts, its
    cell types and its node indices. *)
Theorem quads_then_triangles fld_filename name plot g g0 model g' :
  _remove_old_geometry fld_filename g = (Ok false, g0) →
  read_fluent fld_filename = Ok model →
  load_fluent_geometry fld_filename name plot g = (Ok tt, g') →
  let quads := filter_faces (cart3d_fluent_remove g0) (cart3d_fluent_include g0)
                            (Fluent.quads model) in
  let tris := filter_faces (cart3d_fluent_remove g0) (cart3d_fluent_include g0)
                           (Fluent.tris model) in
  element_ids g' = (element_of <$> rows quads) ++ (element_of <$> rows tris) ∧
  (∃ out normal centroid area nnodes_array,
     get_area_centroid_normal model tris quads = Ok out ∧
     stack_groups out = Ok (normal, centroid, area, nnodes_array) ∧
     area = quad_area out ++ tri_area out ∧
     rows centroid = rows (quad_centroid out) ++ rows (tri_centroid out) ∧
     rows normal = rows (quad_normal out) ++ rows (tri_normal out) ∧
     nnodes_array = ((fun a => a * 0 + 4)%Q <$> quad_area out) ++
                    ((fun a => a * 0 + 3)%Q <$> tri_area out) ∧
     ∃ form cases nx ny nz,
       finished g' = Some (name, form, cases) ∧
       getcol normal 0 = Ok nx ∧ getcol normal 1 = Ok ny ∧ getcol normal 2 = Ok nz ∧
       values_at cases 4 = Some (FloatValues nx) ∧
       values_at cases 5 = Some (FloatValues ny) ∧
       values_at cases 6 = Some (FloatValues nz) ∧
       values_at cases 7 = Some (FloatValues nnodes_array)) ∧
  (∃ p, cells (grid g') = Some p ∧
     node_counts (n_nodes p) = replicate (len2 quads) 4%Z ++ replicate (len2 tris) 3%Z ∧
     cell_types p = replicate (len2 quads) 9%Z ++ replicate (len2 tris) 5%Z ∧
     flat_node_indices (n_nodes p)
     = (local_index (Fluent.node_id model) <$> ravel (cols_from2 quads)) ++
       (local_index (Fluent.node_id model) <$> ravel (cols_from2 tris))).
Proof.
  intros Hskip Hread Hload quads tris.
  destruct (load_Ok _ _ _ _ _ _ _ Hskip Hload) as (l & g1 & Hhead & Htail).
  apply head_Ok in Hhead
    as (model' & out & results0 & Hread' & Hf & Hout & Hstack & _ & Hnid & _ & _ & _).
  rewrite Hread in Hread'. injection Hread' as <-.
  unfold get_filtered_data in Hf. cbv zeta in Hf.
  injection Hf as Heid Htris Hquads _ _.
  fold tris in Htris. fold quads in Hquads. fold tris quads in Heid.
  apply tail_Ok in Htail
    as (_ & ugrid' & form & cases & Hcreate & Hfill & Hgrid & Hfin & _ & Heids).
  rewrite <- Htris, <- Hquads, Hnid in Hcreate. rewrite <- Htris, <- Hquads in Hout.
  split_and!.
  - by rewrite Heids, <- Heid.
  - pose proof Hstack as (Hn & Hc & Ha & Hnn)%stack_groups_Ok.
    exists out, (l_normal l), (l_centroid l), (l_area l), (l_nnodes_array l).
    split_and!; try done.
    destruct (catalog_fixed _ _ _ _ _ _ _ _ _ _ Hfill) as (nx & ny & nz & Hx & Hy & Hz & Hfix).
    exists form, cases, nx, ny, nz. unfold values_at.
    rewrite !Hfix by lia. unfold fixed_cases. by simplify_map_eq.
  - apply create_elements_Ok in Hcreate as [_ ->].
    exists (packed_of (Fluent.node_id model) tris quads). rewrite Hgrid. by split_and!.
Qed.

(** C9.  In a load that returns, the points of the grid are the node
    coordinates converted from ['m'] to ['in'], the first imported field of
    the catalog is column 0 of the filtered values converted from ['Pa'] to
    ['psi'] (when the converter returns one value per row), and every later
    imported field is the column of the filtered values with its own index,
    as it was.  The four unit names are literals of the loader: the
    statement holds for every state of the GUI settings. *)
Theorem units_fixed fld_filename name plot g g0 model g' :
  _remove_old_geometry fld_filename g = (Ok false, g0) →
  read_fluent fld_filename = Ok model →
  rectangular (Fluent.results model) →
  load_fluent_geometry fld_filename name plot g = (Ok tt, g') →
  let results0 :=
    (get_filtered_data model (cart3d_fluent_remove g0) (cart3d_fluent_include g0)).2 in
  ∃ inches column0 psi form cases,
    convert_length (Fluent.xyz model) "m" "in" = Ok inches ∧
    points (grid g') = Some inches ∧
    getcol results0 0 = Ok column0 ∧
    convert_pressure column0 "Pa" "psi" = Ok psi ∧
    finished g' = Some (name, form, cases) ∧
    (∀ title, Fluent.titles model !! 1%nat = Some title →
       length psi = length column0 →
       cases !! 8%Z = Some (imported_entry 1 0 title psi)) ∧
    (∀ i title, (0 < i)%nat → Fluent.titles model !! S i = Some title →
       ∃ column, getcol results0 i = Ok column ∧
                 cases !! (8 + Z.of_nat i)%Z = Some (imported_entry 1 0 title column)).
Proof.
  intros Hskip Hread Hrect Hload results0.
  destruct (load_Ok _ _ _ _ _ _ _ Hskip Hload) as (l & g1 & Hhead & Htail).
  apply head_Ok in Hhead
    as (model' & out & results0' & Hread' & Hf & _ & _ & Hunits & _ & Htitles & _ & ->).
  rewrite Hread in Hread'. injection Hread' as <-.
  assert (results0' = results0) as -> by (subst results0; by rewrite Hf).
  apply convert_units_Ok in Hunits as (Hinches & column0 & psi & Hcol0 & Hpsi & Hset).
  apply tail_Ok in Htail
    as (_ & ugrid' & form & cases & Hcreate & Hfill & Hgrid & Hfin & _ & _).
  apply create_elements_Ok in Hcreate as [_ ->].
  exists (l_nodes l), column0, psi, form, cases. rewrite Htitles in Hfill.
  split_and!; try done.
  - by rewrite Hgrid.
  - intros title Ht Hlen.
    destruct (catalog_imported _ _ _ _ _ _ _ _ _ _ 0%nat title Hfill Ht) as (column & Hc & Hcase).
    rewrite (setcol0_column_0 _ _ _ Hset) in Hc.
    + injection Hc as <-. exact Hcase.
    + by apply get_filtered_data_rectangular.
    + by rewrite Hlen, (getcol_length _ _ _ Hcol0).
  - intros i title Hi Ht.
    destruct (catalog_imported _ _ _ _ _ _ _ _ _ _ i title Hfill Ht) as (column & Hc & Hcase).
    rewrite (setcol0_other_columns _ _ _ _ Hset Hi) in Hc. eauto.
Qed.


(** C7 (amended).  When the node-id array holds a repeated id the load does
    not return: it raises, and neither the cells of the grid nor the
    results handed to the browser have been touched.  If every step before
    line 92 succeeds, the exception is the bare assertion error of that
    line, which carries no message, and the GUI object is as those steps
    left it (node and element counts and points already set). *)
Theorem duplicate_node_aborts fld_filename name plot g g0 model :
  _remove_old_geometry fld_filename g = (Ok false, g0) →
  read_fluent fld_filename = Ok model →
  ¬ NoDup (Fluent.node_id model) →
  ∃ e g',
    load_fluent_geometry fld_filename name plot g = (Raise e, g') ∧
    cells (grid g') = cells (grid g0) ∧
    finished g' = finished g0 ∧
    (∀ l g1, load_fluent_geometry_head fld_filename g0 = (Ok l, g1) →
       e = AssertionError NoMsg ∧ g' = g1).
Proof.
  intros Hskip Hread Hdup. unfold load_fluent_geometry.
  erewrite GuiM_bind_Ok by exact Hskip. cbv iota.
  destruct (load_fluent_geometry_head fld_filename g0) as [[l|e] g1] eqn:Hhead.
  - destruct (head_frame _ _ _ _ Hhead) as [Hcells Hfin].
    exists (AssertionError NoMsg), g1.
    erewrite GuiM_bind_Ok by exact Hhead.
    apply head_Ok in Hhead as (model' & _ & _ & Hread' & _ & _ & _ & _ & Hnid & _).
    rewrite Hread in Hread'. injection Hread' as <-.
    split_and!; try done.
    + unfold load_fluent_geometry_tail. apply GuiM_bind_Raise.
      unfold liftM. rewrite assert_decide_false; [done|].
      rewrite unique_check_NoDup. by rewrite Hnid.
    + by intros ?? [= <- <-].
  - destruct (head_frame _ _ _ _ Hhead) as [Hcells Hfin].
    exists e, g1. erewrite GuiM_bind_Raise by exact Hhead.
    split_and!; try done.
Qed.
End Load.

(* ===================================================================== *)
(** ** The statements on the small mesh *)
(* ===================================================================== *)

Ltac by_evaluation := vm_compute; reflexivity.
Ltac decide_by_evaluation :=
  match goal with |- ?P => apply (bool_decide_unpack P); vm_compute; exact I end.

Lemma cell_offsets_cumulative_witness :
  _create_elements empty_grid (Fluent.node_id mesh_2q3t) (Fluent.tris mesh_2q3t)
                   (Fluent.quads mesh_2q3t) = Ok grid_2q3t ∧
  ∃ p, cells grid_2q3t = Some p ∧
    (∃ c, node_counts (n_nodes p) !! 0%nat = Some c ∧ cell_offsets p !! 0%nat = Some c) ∧
    (∀ i, (0 < i < length (cell_offsets p))%nat →
       ∃ o' o c, cell_offsets p !! (i - 1)%nat = Some o' ∧
                 cell_offsets p !! i = Some o ∧
                 node_counts (n_nodes p) !! i = Some c ∧
                 (o - o' = c)%Z ∧ (o' < o)%Z) ∧
    (len2 (Fluent.quads mesh_2q3t) = 2%nat → len2 (Fluent.tris mesh_2q3t) = 3%nat →
       node_counts (n_nodes p) = [4; 4; 3; 3; 3]%Z ∧
       cell_offsets p = [4; 8; 11; 14; 17]%Z).
Proof.
  split; [by_evaluation|].
  apply (cell_offsets_cumulative empty_grid (Fluent.node_id mesh_2q3t)
           (Fluent.tris mesh_2q3t) (Fluent.quads mesh_2q3t) grid_2q3t).
  by_evaluation.
Defined.

Lemma small_mesh_valid :
  valid_mesh (Fluent.node_id mesh_2q3t) (Fluent.tris mesh_2q3t) (Fluent.quads mesh_2q3t).
Proof.
  split.
  - reflexivity.
  - reflexivity.
  - discriminate.
  - apply Forall_forall. decide_by_evaluation.
  - discriminate.
  - apply Forall_forall. decide_by_evaluation.
Defined.

Lemma packed_lengths_witness :
  ∃ ugrid' p,
    _create_elements empty_grid (Fluent.node_id mesh_2q3t) (Fluent.tris mesh_2q3t)
                     (Fluent.quads mesh_2q3t) = Ok ugrid' ∧
    cells ugrid' = Some p ∧
    length (node_counts (n_nodes p)) = 5%nat ∧
    length (cell_types p) = 5%nat ∧
    length (cell_offsets p) = 5%nat ∧
    Z.of_nat (length (flat_node_indices (n_nodes p))) = total (node_counts (n_nodes p)).
Proof.
  apply (packed_lengths empty_grid (Fluent.node_id mesh_2q3t) (Fluent.tris mesh_2q3t)
           (Fluent.quads mesh_2q3t)).
  - unfold rectangular. decide_by_evaluation.
  - unfold rectangular. decide_by_evaluation.
  - exact small_mesh_valid.
Defined.

(** C5, as claimed, fails on the mesh whose faces have all been filtered
    out, which the specification counts as valid.  With two face tables
    without rows and node ids 1 to 10, [_create_elements] raises [ValueError]
    at the minimum of the empty array of referenced ids, so there is no
    packed connectivity with arrays of length 0.  The same happens in a load
    of the small mesh when its only region, 7, is in [regions_to_remove]. *)
Lemma no_face_nothing_packed :
  rectangular no_tris ∧ rectangular no_quads ∧
  shape1 no_tris = 5%nat ∧ shape1 no_quads = 6%nat ∧
  _create_elements empty_grid nodes_1_to_10 no_tris no_quads
    = Raise (ValueError "zero-size array to reduction operation minimum which has no identity") ∧
  ¬ (∃ ugrid' p,
       _create_elements empty_grid nodes_1_to_10 no_tris no_quads = Ok ugrid' ∧
       cells ugrid' = Some p ∧
       length (cell_types p) = (len2 no_quads + len2 no_tris)%nat) ∧
  (@load_fluent_geometry (stand_in mesh_2q3t) "mesh.cel" "main" true (fresh_gui [7]%Z [])).1
    = Raise (ValueError "zero-size array to reduction operation minimum which has no identity").
Proof.
  split_and!; try by_evaluation; try (unfold rectangular; decide_by_evaluation).
  intros (ugrid' & p & Hok & _). discriminate Hok.
Qed.

Lemma small_mesh_loads :
  @load_fluent_geometry (stand_in mesh_2q3t) "mesh.cel" "main" true (fresh_gui [] [])
  = (Ok tt, gui_2q3t).
Proof. by_evaluation. Defined.

Lemma quads_then_triangles_witness :
  element_ids gui_2q3t = [1; 2; 3; 4; 5]%Z ∧
  ∃ p, cells (grid gui_2q3t) = Some p ∧
       node_counts (n_nodes p) = [4; 4; 3; 3; 3]%Z ∧
       cell_types p = [9; 9; 5; 5; 5]%Z.
Proof.
  destruct (@quads_then_triangles (stand_in mesh_2q3t) "mesh.cel" "main" true
              (fresh_gui [] []) (fresh_gui [] []) mesh_2q3t gui_2q3t
              eq_refl eq_refl small_mesh_loads)
    as (Hids & _ & p & Hcells & Hcounts & Htypes & _).
  split; [exact Hids|]. exists p. split; [exact Hcells|]. split; [exact Hcounts | exact Htypes].
Defined.

Lemma small_catalog_built :
  _fill_fluent_case ∅ 1 (Fluent.node_id mesh_2q3t) [1; 2; 3; 4; 5]%Z
    (replicate 5 7%Z) (Fluent.results mesh_2q3t) (Fluent.titles mesh_2q3t)
    (Array2 3 (replicate 5 [0; 0; 1]%Q)) (replicate 5 4%Q)
  = Ok (catalog_2q3t.1, catalog_2q3t.2).
Proof. by_evaluation. Defined.

Lemma field_catalog_order_witness :
  catalog_2q3t.1
  = [FormEntry "NodeID" 0 []; FormEntry "ElementID" 1 []; FormEntry "Region" 2 [];
     FormEntry "Normal" 3 []; FormEntry "NormalX" 4 []; FormEntry "NormalY" 5 [];
     FormEntry "NormalZ" 6 []; FormEntry "Nnodes" 7 [];
     FormEntry "Pressure" 8 []; FormEntry "Temperature" 9 []] ∧
  ∃ column, getcol (Fluent.results mesh_2q3t) 1 = Ok column ∧
    catalog_2q3t.2 !! 9%Z
    = Some (GuiResult 1 "Temperature" "Temperature" "centroid" (FloatValues column)
                      None None None, (0%Z, "Temperature")).
Proof.
  destruct (field_catalog_order _ _ _ _ _ _ _ _ _ _ _ small_catalog_built)
    as (Hform & _ & Himported).
  split; [exact Hform|]. exact (Himported 1%nat "Temperature" eq_refl).
Defined.



(** The message of that error is the array [[999]]. *)
Example missing_node_999_named ugrid :
  _create_elements ugrid nodes_1_to_10 tris_with_999 no_quads
  = Raise (AssertionError (MsgIds [999]%Z)).
Proof. reflexivity. Qed.

Lemma field_length_mismatch_rejected_witness :
  _fill_fluent_case ∅ 1 nodes_1_to_10 ten_ids ten_regions nine_values ["ID"; "Pressure"]
                    ten_normals (replicate 10 3%Q)
  = Raise (AssertionError NoMsg).
Proof.
  destruct (field_length_mismatch_rejected ∅ 1 nodes_1_to_10 ten_ids ten_regions
              nine_values ["ID"; "Pressure"] ten_normals (replicate 10 3%Q))
    as (_ & Hrows & _).
  - simpl. lia.
  - simpl. lia.
  - apply Hrows.
    + reflexivity.
    + discriminate.
    + vm_compute. lia.
Defined.

Lemma region_filter_precedence_witness :
  rows (filter_faces [7]%Z [7]%Z (Fluent.tris mesh_2q3t)) = rows (Fluent.tris mesh_2q3t) ∧
  filter_faces [] [] (Fluent.quads mesh_2q3t) = Fluent.quads mesh_2q3t.
Proof.
  split.
  - destruct (region_filter_precedence mesh_2q3t [7]%Z [7]%Z) as [Hinclude _].
    destruct Hinclude as [Htris _]; [discriminate|]. exact Htris.
  - destruct (region_filter_precedence mesh_2q3t [] []) as [_ Hnoop].
    destruct (Hnoop eq_refl eq_refl) as [_ Hquads]. exact Hquads.
Defined.

Lemma small_mesh_values_rectangular : rectangular (Fluent.results mesh_2q3t).
Proof. unfold rectangular. decide_by_evaluation. Defined.

Lemma units_fixed_witness :
  points (grid gui_2q3t) = Some (scale2 (5000 # 127) (Fluent.xyz mesh_2q3t)) ∧
  ∃ form cases,
    finished gui_2q3t = Some ("main", form, cases) ∧
    cases !! 8%Z = Some (imported_entry 1 0 "Pressure"
                           (Qmult (1 # 6895) <$> [100; 200; 300; 400; 500]%Q)) ∧
    cases !! 9%Z = Some (imported_entry 1 0 "Temperature" [1; 2; 3; 4; 5]%Q).
Proof.
  destruct (@units_fixed (stand_in mesh_2q3t) "mesh.cel" "main" true
              (fresh_gui [] []) (fresh_gui [] []) mesh_2q3t gui_2q3t
              eq_refl eq_refl small_mesh_values_rectangular small_mesh_loads)
    as (inches & column0 & psi & form & cases & Hinches & Hpoints & Hcolumn0 & Hpsi & Hfin
        & Hfirst & Hothers).
  injection Hinches as <-. injection Hcolumn0 as <-. injection Hpsi as <-.
  split; [exact Hpoints|]. exists form, cases. split; [exact Hfin|]. split.
  - exact (Hfirst "Pressure" eq_refl eq_refl).
  - destruct (Hothers 1%nat "Temperature" (Nat.lt_0_1) eq_refl) as (column & Hcolumn & Hcase).
    injection Hcolumn as <-. exact Hcase.
Defined.



Lemma duplicate_node_present : ¬ NoDup (Fluent.node_id mesh_duplicate_node).
Proof. intros Hnd. apply (bool_decide_pack _) in Hnd. vm_compute in Hnd. exact Hnd. Defined.

Lemma duplicate_node_aborts_witness :
  ∃ e g',
    @load_fluent_geometry (stand_in mesh_duplicate_node) "mesh.cel" "main" true
                          (fresh_gui [] []) = (Raise e, g') ∧
    cells (grid g') = None ∧
    finished g' = None.
Proof.
  destruct (@duplicate_node_aborts (stand_in mesh_duplicate_node) "mesh.cel" "main" true
              (fresh_gui [] []) (fresh_gui [] []) mesh_duplicate_node
              eq_refl eq_refl duplicate_node_present)
    as (e & g' & Hload & Hcells & Hfin & _).
  exists e, g'. split; [exact Hload|]. split; [exact Hcells | exact Hfin].
Defined.

(** C7, as claimed, fails on the mesh with node id 2 repeated: the load
    raises the bare assertion error of line 92, whose message names no id. *)
Lemma duplicate_node_error_names_no_id :
  ¬ NoDup (Fluent.node_id mesh_duplicate_node) ∧
  (@load_fluent_geometry (stand_in mesh_duplicate_node) "mesh.cel" "main" true
                         (fresh_gui [] [])).1 = Raise (AssertionError NoMsg) ∧
  ¬ (∃ m, (@load_fluent_geometry (stand_in mesh_duplicate_node) "mesh.cel" "main" true
                                 (fresh_gui [] [])).1 = Raise (AssertionError m) ∧
          message_names (fun x => x = 2%Z) m).
Proof.
  split; [exact duplicate_node_present|]. split; [by_evaluation|].
  intros (m & Hm & Hnames).
  assert ((@load_fluent_geometry (stand_in mesh_duplicate_node) "mesh.cel" "main" true
             (fresh_gui [] [])).1 = Raise (AssertionError NoMsg)) as Hbare by by_evaluation.
  rewrite Hbare in Hm. injection Hm as <-. exact Hnames.
Qed.

(* ===================================================================== *)
(** ** [_create_elements]: every way it can end *)
(* ===================================================================== *)

Lemma np_min_nil_iff a : (∃ why, np_min a = Raise (ValueError why)) ↔ a = [].
Proof.
  destruct a as [|x l]; simpl; split; try done.
  - intros _. eauto.
  - intros (why & Hw). discriminate Hw.
Qed.

Lemma create_elements_cases ugrid node_id tris quads :
  create_elements_outcome ugrid node_id tris quads
    (_create_elements ugrid node_id tris quads).
Proof.
  destruct (_create_elements ugrid node_id tris quads) as [ugrid'|e] eqn:Hrun.
  { apply create_elements_Ok in Hrun as [Hchk ->]. by constructor. }
  revert Hrun. unfold _create_elements. cbv zeta. fold (referenced tris quads).
  destruct (decide (shape1 tris = 5%nat)) as [Ht|Ht];
    [rewrite (assert_decide_true _ _ Ht) | rewrite (assert_decide_false _ _ Ht)];
    cbn [mbind result_bind]; [|intros [= <-]; by constructor].
  destruct (decide (shape1 quads = 6%nat)) as [Hq|Hq];
    [rewrite (assert_decide_true _ _ Hq) | rewrite (assert_decide_false _ _ Hq)];
    cbn [mbind result_bind]; [|intros [= <-]; by constructor].
  assert (shape1 (cols_from2 tris) = 3%nat) as Ht' by (simpl; lia).
  assert (shape1 (cols_from2 quads) = 4%nat) as Hq' by (simpl; lia).
  rewrite (assert_decide_true _ _ Ht'). cbn [mbind result_bind].
  rewrite (assert_decide_true _ _ Hq'). cbn [mbind result_bind].
  destruct node_id as [|n node_id]; [intros [= <-]; by constructor|].
  destruct (np_min (n :: node_id)) as [m|?] eqn:Hm; [|discriminate Hm].
  cbn [mbind result_bind].
  destruct (decide (1 ≤ m)%Z) as [Hm1|Hm1];
    [rewrite (assert_decide_true _ _ Hm1) | rewrite (assert_decide_false _ _ Hm1)];
    cbn [mbind result_bind]; [|intros [= <-]; apply ce_node_id_below_1; (done || lia)].
  destruct (np_min (np_unique (referenced tris quads))) as [m'|e'] eqn:Hm'.
  2:{ cbn [mbind result_bind]. intros [= <-].
      destruct (np_unique (referenced tris quads)) eqn:Hu; [|discriminate Hm'].
      injection Hm' as <-. apply (ce_no_face _ _ _ _ m); try done.
      by apply np_unique_nil_inv. }
  cbn [mbind result_bind].
  destruct (decide (1 ≤ m')%Z) as [Hm1'|Hm1'];
    [rewrite (assert_decide_true _ _ Hm1') | rewrite (assert_decide_false _ _ Hm1')];
    cbn [mbind result_bind];
    [|intros [= <-]; apply (ce_referenced_below_1 _ _ _ _ m); (done || lia)].
  destruct (decide (length (np_setdiff1d (np_unique (referenced tris quads)) (n :: node_id))
                    = 0%nat)) as [Hl|Hl].
  - intros Hrun. exfalso.
    assert (checks_pass (n :: node_id) tris quads) as Hchk.
    { split; try done; [by exists m | by exists m' | by apply length_zero_iff_nil]. }
    assert (_create_elements ugrid (n :: node_id) tris quads =
            Ok (MkGrid (allocated ugrid) (points ugrid)
                       (Some (packed_of (n :: node_id) tris quads)) (modified ugrid))) as Hok
      by (by apply create_elements_Ok).
    revert Hok. unfold _create_elements. cbv zeta. fold (referenced tris quads).
    rewrite (assert_decide_true _ _ Ht), (assert_decide_true _ _ Hq).
    cbn [mbind result_bind].
    rewrite (assert_decide_true _ _ Ht'), (assert_decide_true _ _ Hq').
    cbn [mbind result_bind]. rewrite Hm. cbn [mbind result_bind].
    rewrite (assert_decide_true _ _ Hm1). cbn [mbind result_bind].
    rewrite Hm'. cbn [mbind result_bind].
    rewrite (assert_decide_true _ _ Hm1'). cbn [mbind result_bind].
    rewrite Hrun. discriminate.
  - rewrite (assert_decide_false _ _ Hl). cbn [mbind result_bind].
    intros [= <-]. apply (ce_missing _ _ _ _ m m'); try done.
    intros Hnil. rewrite Hnil in Hl. by apply Hl.
Qed.

(** X1.  [_create_elements] returns exactly on a valid mesh: face tables of
    width 5 and 6, a non-empty node-id array of ids >= 1, at least one face,
    and every id a face refers to >= 1 and in the node set. *)
Theorem create_elements_returns_iff_valid ugrid node_id tris quads :
  (∃ ugrid', _create_elements ugrid node_id tris quads = Ok ugrid') ↔
  valid_mesh node_id tris quads.
Proof.
  rewrite <- checks_pass_valid. split.
  - intros (ugrid' & Hok). by apply create_elements_Ok in Hok as [Hchk _].
  - intros Hchk. eexists. by apply create_elements_Ok.
Qed.

(** X2.  [_create_elements] raises [ValueError] exactly when the tables have
    the right width and either there is no node id at all, or the node ids
    are all >= 1 and no face refers to any node: in particular when every
    face has been filtered out, it raises instead of packing an empty
    connectivity. *)
Theorem create_elements_value_error_iff ugrid node_id tris quads :
  (∃ why, _create_elements ugrid node_id tris quads = Raise (ValueError why)) ↔
  shape1 tris = 5%nat ∧ shape1 quads = 6%nat ∧
  (node_id = [] ∨ ((∀ n, n ∈ node_id → (1 ≤ n)%Z) ∧ referenced tris quads = [])).
Proof.
  pose proof (create_elements_cases ugrid node_id tris quads) as Hcase.
  split.
  - intros (why & Hrun). rewrite Hrun in Hcase.
    inversion Hcase as [| |why' Ht Hq Hn| |m why' Ht Hq Hm Hm1 Hf| | |]; subst.
    + split_and!; [done..|]. by left.
    + split_and!; [done..|]. right. split; [|done].
      intros n Hn. apply np_min_Ok in Hm as [_ Hle]. specialize (Hle n Hn). lia.
  - intros (Ht & Hq & Hcond).
    inversion Hcase as [Ht'|Ht' Hq'|why Ht' Hq' Hn Hr|m Ht' Hq' Hm Hm1 Hr|m why Ht' Hq' Hm Hm1 Hf Hr
                        |m m' Ht' Hq' Hm Hm1 Hm' Hm1' Hr|m m' Ht' Hq' Hm Hm1 Hm' Hm1' Hmiss Hr
                        |Hchk Hr]; try done; try by eauto.
    + destruct Hcond as [->|[Hpos _]]; [discriminate Hm|].
      apply np_min_Ok in Hm as [Hin _]. specialize (Hpos m Hin). lia.
    + destruct Hcond as [->|[_ Hf]]; [discriminate Hm|].
      rewrite Hf in Hm'. discriminate Hm'.
    + destruct Hcond as [->|[_ Hf]]; [discriminate Hm|].
      rewrite Hf in Hm'. discriminate Hm'.
    + apply checks_pass_valid in Hchk as [_ _ Hn _ Hf _].
      by destruct Hcond as [->|[_ Hf']].
Qed.

(** X3.  The guard on the node ids comes before anything is asked of the
    faces: when the tables have the right width and some node id is below 1,
    [_create_elements] raises the assertion error that carries the smallest
    node id, whatever the faces refer to. *)
Theorem create_elements_node_id_guard ugrid node_id tris quads n :
  shape1 tris = 5%nat → shape1 quads = 6%nat →
  n ∈ node_id → (n < 1)%Z →
  ∃ m, _create_elements ugrid node_id tris quads = Raise (AssertionError (MsgInt m)) ∧
       m ∈ node_id ∧ (m < 1)%Z ∧ ∀ x, x ∈ node_id → (m ≤ x)%Z.
Proof.
  intros Ht Hq Hn Hn1.
  pose proof (create_elements_cases ugrid node_id tris quads) as Hcase.
  assert (∀ m, np_min node_id = Ok m → (m < 1)%Z) as Hlow.
  { intros m Hm. apply np_min_Ok in Hm as [_ Hle]. specialize (Hle n Hn). lia. }
  inversion Hcase as [Ht'|Ht' Hq'|why Ht' Hq' Hnil Hr|m Ht' Hq' Hm Hm1 Hr|m why Ht' Hq' Hm Hm1 Hf Hr
                      |m m' Ht' Hq' Hm Hm1 Hm' Hm1' Hr|m m' Ht' Hq' Hm Hm1 Hm' Hm1' Hmiss Hr
                      |Hchk Hr]; try done.
  - subst. by apply elem_of_nil in Hn.
  - exists m. apply np_min_Ok in Hm as [Hin Hle]. by split_and!.
  - specialize (Hlow m Hm). lia.
  - specialize (Hlow m Hm). lia.
  - specialize (Hlow m Hm). lia.
  - destruct Hchk as [_ _ (m & Hm & Hm1) _ _]. specialize (Hlow m Hm). lia.
Qed.

(** X4.  The only exceptions [_create_elements] raises are [ValueError] and
    assertion errors, and each of its assertion errors carries a message: a
    shape, an id or an array of ids. *)
Theorem create_elements_exceptions ugrid node_id tris quads e :
  _create_elements ugrid node_id tris quads = Raise e →
  (∃ why, e = ValueError why) ∨
  (∃ nrow ncol, e = AssertionError (MsgShape nrow ncol)) ∨
  (∃ z, e = AssertionError (MsgInt z)) ∨
  (∃ ids, e = AssertionError (MsgIds ids) ∧ ids ≠ []).
Proof.
  intros Hrun.
  pose proof (create_elements_cases ugrid node_id tris quads) as Hcase.
  rewrite Hrun in Hcase. inversion Hcase; subst; eauto 10.
Qed.

(* ===================================================================== *)
(** ** [_fill_fluent_case]: when it returns, bounds, and the dictionary *)
(* ===================================================================== *)

Lemma fill_imported_returns_iff ID itime element_ids results rest icase form cases :
  (∃ out, fill_imported ID itime element_ids results 0 rest icase form cases = Ok out) ↔
  (length rest ≤ shape1 results)%nat ∧
  (rest ≠ [] → length element_ids = len2 results).
Proof.
  split; [|intros [Hcols Hrows]; by apply fill_imported_returns].
  intros ([form' cases'] & Hok).
  apply fill_imported_Ok in Hok as (_ & Hin & _).
  destruct rest as [|title rest]; [simpl; split; [lia | done]|].
  destruct (lookup_lt_is_Some_2 (title :: rest) (length rest)) as [t Ht];
    [simpl; lia|].
  destruct (Hin _ _ Ht) as (c & [Hc _]%getcol_Ok & _).
  destruct (Hin 0%nat title eq_refl) as (c0 & Hc0 & Hlen & _).
  split; [cbn [length]; lia|]. intros _. by rewrite Hlen, (getcol_length _ _ _ Hc0).
Qed.

Lemma getcol_out_of_range {A} `{Inhabited A} (a : array2 A) i :
  ¬ (i < shape1 a)%nat →
  getcol a i = Raise (IndexError ("index " +:+ pretty i +:+
                                  " is out of bounds for axis 1 with size " +:+
                                  pretty (shape1 a))).
Proof. intros Hi. unfold getcol. by rewrite decide_False. Qed.

Lemma fixed_cases_used cases cases0 ID node_ids element_ids region nx ny nz nnodes_array k :
  (0 ≤ k < 8)%Z →
  fixed_cases cases ID node_ids element_ids region nx ny nz nnodes_array !! k
  = fixed_cases cases0 ID node_ids element_ids region nx ny nz nnodes_array !! k.
Proof.
  intros Hk. unfold fixed_cases.
  assert (k = 0 ∨ k = 1 ∨ k = 2 ∨ k = 3 ∨ k = 4 ∨ k = 5 ∨ k = 6 ∨ k = 7)%Z
    as [->|[->|[->|[->|[->|[->|[->| ->]]]]]]] by lia;
    by simplify_map_eq.
Qed.

Lemma fill_fluent_case_returns cases ID node_ids element_ids region results titles
    normal nnodes_array :
  (∃ out, _fill_fluent_case cases ID node_ids element_ids region results titles
                            normal nnodes_array = Ok out) ↔
  (3 ≤ shape1 normal)%nat ∧
  length element_ids = length region ∧
  (length (drop 1 titles) ≤ shape1 results)%nat ∧
  (drop 1 titles ≠ [] → length element_ids = len2 results).
Proof.
  split.
  - intros ([form cases'] & Hok).
    apply fill_fluent_case_Ok in Hok as (nx & ny & nz & _ & _ & Hnz & Hlen & Hok).
    apply getcol_Ok in Hnz as [Hnz _].
    assert (∃ out, fill_imported ID 0 element_ids results 0 (drop 1 titles) 8 fixed_form
                     (fixed_cases cases ID node_ids element_ids region nx ny nz nnodes_array)
                   = Ok out) as [Hcols Hrows]%fill_imported_returns_iff by eauto.
    split_and!; [lia | done | lia | done].
  - intros (Hnormal & Hlen & Hcols & Hrows). unfold _fill_fluent_case.
    destruct (getcol_in_range normal 0) as (nx & ->); [lia|].
    destruct (getcol_in_range normal 1) as (ny & ->); [lia|].
    destruct (getcol_in_range normal 2) as (nz & ->); [lia|].
    cbn [mbind result_bind]. rewrite assert_decide_true by done. cbn [mbind result_bind].
    by apply fill_imported_returns.
Qed.

(** X5.  Whenever [_fill_fluent_case] returns, the normal array has at least
    three columns, the element-id and region arrays have one length, the
    values have a column for every title after the first and, if there is
    such a title, one row per element id. *)
Theorem fill_fluent_case_returns_only_if cases ID node_ids element_ids region results
    titles normal nnodes_array out :
  _fill_fluent_case cases ID node_ids element_ids region results titles
                    normal nnodes_array = Ok out →
  (3 ≤ shape1 normal)%nat ∧
  length element_ids = length region ∧
  (length (drop 1 titles) ≤ shape1 results)%nat ∧
  (drop 1 titles ≠ [] → length element_ids = len2 results).
Proof.
  intros Hok.
  apply (fill_fluent_case_returns cases ID node_ids element_ids region results titles
           normal nnodes_array).
  by exists out.
Qed.

(** X6.  The columns of the normal array are read before the lengths are
    compared: with fewer than three columns [_fill_fluent_case] does not
    return, and what it raises is not the assertion on the lengths of the
    element-id and region arrays, even when these lengths differ. *)
Theorem normal_columns_before_lengths cases ID node_ids element_ids region results titles
    normal nnodes_array :
  (shape1 normal < 3)%nat →
  ∃ e, _fill_fluent_case cases ID node_ids element_ids region results titles
                         normal nnodes_array = Raise e ∧
       ∀ neids nregion, e ≠ AssertionError (MsgLens neids nregion).
Proof.
  intros Hnormal. unfold _fill_fluent_case.
  destruct (decide (0 < shape1 normal)%nat) as [H0|H0];
    [|rewrite (getcol_out_of_range normal 0) by done; by eexists].
  destruct (getcol_in_range normal 0 H0) as (nx & ->). cbn [mbind result_bind].
  destruct (decide (1 < shape1 normal)%nat) as [H1|H1];
    [|rewrite (getcol_out_of_range normal 1) by done; by eexists].
  destruct (getcol_in_range normal 1 H1) as (ny & ->). cbn [mbind result_bind].
  rewrite (getcol_out_of_range normal 2) by lia. by eexists.
Qed.

(** X7.  [_fill_fluent_case] fills the dictionary it is given: an entry
    already there under an index it does not use (below 0, or from 8 plus the
    number of imported titles on) is kept; the indices it uses are
    overwritten, so that the form and the entries under those indices do not
    depend on what the dictionary held. *)
Theorem fill_fluent_case_frame cases ID node_ids element_ids region results titles
    normal nnodes_array form cases' :
  _fill_fluent_case cases ID node_ids element_ids region results titles normal nnodes_array
    = Ok (form, cases') →
  (∀ k, (k < 0 ∨ 8 + Z.of_nat (length (drop 1 titles)) ≤ k)%Z →
        cases' !! k = cases !! k) ∧
  (∀ k, (0 ≤ k < 8 + Z.of_nat (length (drop 1 titles)))%Z → is_Some (cases' !! k)) ∧
  (∀ cases0 form0 cases0',
     _fill_fluent_case cases0 ID node_ids element_ids region results titles normal
                       nnodes_array = Ok (form0, cases0') →
     form0 = form ∧
     ∀ k, (0 ≤ k < 8 + Z.of_nat (length (drop 1 titles)))%Z → cases0' !! k = cases' !! k).
Proof.
  intros Hok.
  apply fill_fluent_case_Ok in Hok as (nx & ny & nz & Hnx & Hny & Hnz & _ & Hok).
  apply fill_imported_Ok in Hok as (Hform & Hin & Hout).
  assert (∀ k, (8 ≤ k < 8 + Z.of_nat (length (drop 1 titles)))%Z →
               ∃ title column, drop 1 titles !! Z.to_nat (k - 8) = Some title ∧
                 getcol results (Z.to_nat (k - 8)) = Ok column ∧
                 cases' !! k = Some (imported_entry ID 0 title column)) as Himp.
  { intros k Hk.
    destruct (lookup_lt_is_Some_2 (drop 1 titles) (Z.to_nat (k - 8))) as [title Ht]; [lia|].
    destruct (Hin _ _ Ht) as (column & Hcol & _ & Hcase).
    replace (8 + Z.of_nat (Z.to_nat (k - 8)))%Z with k in Hcase by lia. eauto. }
  split_and!.
  - intros k Hk. rewrite Hout by lia. apply fixed_cases_lookup. lia.
  - intros k Hk. destruct (decide (k < 8)%Z) as [Hlt|Hge].
    + rewrite Hout by lia. rewrite (fixed_cases_used _ ∅) by lia. unfold fixed_cases.
      assert (k = 0 ∨ k = 1 ∨ k = 2 ∨ k = 3 ∨ k = 4 ∨ k = 5 ∨ k = 6 ∨ k = 7)%Z
        as [->|[->|[->|[->|[->|[->|[->| ->]]]]]]] by lia;
        by simplify_map_eq.
    + destruct (Himp k) as (title & column & _ & _ & ->); [lia | done].
  - intros cases0 form0 cases0' Hok0.
    apply fill_fluent_case_Ok in Hok0 as (nx0 & ny0 & nz0 & Hnx0 & Hny0 & Hnz0 & _ & Hok0).
    assert (nx0 = nx) as -> by congruence.
    assert (ny0 = ny) as -> by congruence.
    assert (nz0 = nz) as -> by congruence.
    apply fill_imported_Ok in Hok0 as (Hform0 & Hin0 & Hout0).
    split; [congruence|]. intros k Hk. destruct (decide (k < 8)%Z) as [Hlt|Hge].
    + rewrite Hout, Hout0 by lia. apply fixed_cases_used. lia.
    + destruct (Himp k) as (title & column & Ht & Hcol & ->); [lia|].
      destruct (Hin0 _ _ Ht) as (column0 & Hcol0 & _ & Hcase0).
      replace (8 + Z.of_nat (Z.to_nat (k - 8)))%Z with k in Hcase0 by lia.
      rewrite Nat.add_0_l in Hcol0. congruence.
Qed.

(** X8.  The form and the dictionary [_fill_fluent_case] returns agree: the
    form has eight entries plus one per title after the first, its entry
    number [i] has index [i] and no children, and the dictionary holds under
    that index a result labelled with the name of the entry. *)
Theorem form_indexes_cases cases ID node_ids element_ids region results titles
    normal nnodes_array form cases' :
  _fill_fluent_case cases ID node_ids element_ids region results titles normal nnodes_array
    = Ok (form, cases') →
  length form = (8 + length (drop 1 titles))%nat ∧
  ∀ i entry, form !! i = Some entry →
    ∃ name res, entry = FormEntry name (Z.of_nat i) [] ∧
                cases' !! Z.of_nat i = Some (res, (0%Z, name)).
Proof.
  intros Hok.
  apply fill_fluent_case_Ok in Hok as (nx & ny & nz & _ & _ & _ & _ & Hok).
  apply fill_imported_Ok in Hok as (-> & Hin & Hout). split.
  - by rewrite length_app, length_imap.
  - intros i entry Hi. apply lookup_app_Some in Hi as [Hi|[Hge Hi]].
    + assert (i < 8)%nat as Hlt by (apply lookup_lt_Some in Hi; simpl in Hi; lia).
      rewrite Hout by lia. unfold fixed_cases, fixed_form in *.
      do 8 (destruct i as [|i]; [injection Hi as <-; eexists _, _; split;
                                  [reflexivity | by simplify_map_eq]|]).
      lia.
    + cbn [fixed_form length] in Hge, Hi. rewrite list_lookup_imap in Hi.
      destruct (drop 1 titles !! (i - 8)%nat) as [title|] eqn:Ht; [|done].
      injection Hi as <-. destruct (Hin _ _ Ht) as (column & _ & _ & Hcase).
      replace (8 + Z.of_nat (i - 8))%Z with (Z.of_nat i) in * by lia.
      eexists _, _. split; [reflexivity | exact Hcase].
Qed.

(* ===================================================================== *)
(** ** The bounding box *)
(* ===================================================================== *)

Lemma reduce_axis0_Ok f a v :
  reduce_axis0 f a = Ok v →
  rows a ≠ [] ∧ length v = shape1 a ∧
  ∀ j, (j < shape1 a)%nat →
    ∃ r rs, rows a = r :: rs ∧
            v !! j = Some (foldl (fun acc row => f acc (row !!! j)) (r !!! j) rs).
Proof.
  unfold reduce_axis0. destruct (rows a) as [|r rs]; [discriminate|].
  intros [= <-]. split_and!; [done | by rewrite length_fmap, length_seq|].
  intros j Hj. exists r, rs. split; [done|].
  rewrite list_lookup_fmap, lookup_seq_lt by done. done.
Qed.

Lemma unpack3_Ok v x y z : unpack3 v = Ok (x, y, z) ↔ v = [x; y; z].
Proof.
  unfold unpack3. split.
  - destruct v as [|a [|b [|c [|??]]]]; try discriminate. by intros [= -> -> ->].
  - by intros ->.
Qed.


Lemma setcol0_shape {A} (a a' : array2 A) v :
  setcol0 a v = Ok a' → shape1 a' = shape1 a ∧ (0 < shape1 a)%nat.
Proof.
  unfold setcol0. case_decide; [discriminate|]. case_decide.
  - intros [= <-]. simpl. lia.
  - destruct v as [|x [|??]]; try discriminate. intros [= <-]. simpl. lia.
Qed.

(* ===================================================================== *)
(** ** The GUI object after a load *)
(* ===================================================================== *)

Section AfterLoad.
Context `{E : Externals}.

Lemma head_box fld_filename g l g1 :
  load_fluent_geometry_head fld_filename g = (Ok l, g1) →
  ∃ xmax ymax zmax xmin ymin zmin,
    reduce_axis0 Qmax (l_nodes l) ≫= unpack3 = Ok (xmax, ymax, zmax) ∧
    reduce_axis0 Qmin (l_nodes l) ≫= unpack3 = Ok (xmin, ymin, zmin) ∧
    l_dim_max l = Qmax (Qmax (xmax - xmin) (ymax - ymin)) (zmax - zmin).
Proof.
  unfold load_fluent_geometry_head. intros H.
  lift_step H as model Hread. do 2 state_step H.
  destruct (get_filtered_data _ _ _) as [[[[element_id tris] quads] region] results0] eqn:Hf.
  lift_step H as out Hout.
  lift_step H as [[[normal centroid] area] nnodes_array] Hstack.
  lift_step H as [nodes results] Hunits.
  lift_step H as [] Hlen.
  do 4 state_step H.
  lift_step H as [[xmax ymax] zmax] Hmax.
  lift_step H as [[xmin ymin] zmin] Hmin.
  injection H as <- <-. cbn [l_nodes l_dim_max].
  exists xmax, ymax, zmax, xmin, ymin, zmin. by split_and!.
Qed.

(** What the lines after the packing set, in a tail that returns. *)
Lemma tail_state model_name l g u g' :
  load_fluent_geometry_tail model_name l g = (Ok u, g') →
  nnodes g' = nnodes g ∧ nelements g' = nelements g ∧
  nid_map g' = ∅ ∧
  global_axes g' = Some (l_dim_max l) ∧
  scalar_bar_visible g' = false ∧
  isubcase_name_map g' = {[1%Z := ("Fluent", "")]} ∧
  cart3d_fluent_remove g' = cart3d_fluent_remove g ∧
  cart3d_fluent_include g' = cart3d_fluent_include g.
Proof.
  unfold load_fluent_geometry_tail. intros H.
  lift_step H as [] Hunique.
  state_step H. lift_step H as ugrid' Hcreate.
  do 7 state_step H. lift_step H as [form cases] Hfill.
  state_step H. apply modifyM_Ok in H as ->.
  by split_and!.
Qed.

(** Whatever happens after the geometry is cleaned up, the loader leaves the
    two region lists of the settings alone, and until the very end it leaves
    [gui.node_ids], [gui.element_ids] and what the results browser got. *)
Lemma head_frame_ids fld_filename g outcome g1 :
  load_fluent_geometry_head fld_filename g = (outcome, g1) →
  node_ids g1 = node_ids g ∧ element_ids g1 = element_ids g ∧
  cart3d_fluent_remove g1 = cart3d_fluent_remove g ∧
  cart3d_fluent_include g1 = cart3d_fluent_include g.
Proof.
  unfold load_fluent_geometry_head, mbind, GuiM_bind, liftM, getsM, modifyM, mret, GuiM_ret.
  intros H. repeat case_match; simplify_eq; done.
Qed.

Lemma tail_frame_raise model_name l g e g' :
  load_fluent_geometry_tail model_name l g = (Raise e, g') →
  finished g' = finished g ∧ node_ids g' = node_ids g ∧ element_ids g' = element_ids g ∧
  cart3d_fluent_remove g' = cart3d_fluent_remove g ∧
  cart3d_fluent_include g' = cart3d_fluent_include g.
Proof.
  unfold load_fluent_geometry_tail, mbind, GuiM_bind, liftM, getsM, modifyM, mret, GuiM_ret.
  intros H. repeat case_match; simplify_eq; done.
Qed.

Lemma load_Raise fld_filename name plot g g0 e g' :
  _remove_old_geometry fld_filename g = (Ok false, g0) →
  load_fluent_geometry fld_filename name plot g = (Raise e, g') →
  load_fluent_geometry_head fld_filename g0 = (Raise e, g') ∨
  ∃ l g1, load_fluent_geometry_head fld_filename g0 = (Ok l, g1) ∧
          load_fluent_geometry_tail name l g1 = (Raise e, g').
Proof.
  unfold load_fluent_geometry. intros Hskip.
  erewrite GuiM_bind_Ok by exact Hskip. cbv iota.
  destruct (load_fluent_geometry_head fld_filename g0) as [[l|e'] g1] eqn:Hhead.
  - erewrite GuiM_bind_Ok by exact Hhead. eauto.
  - erewrite GuiM_bind_Raise by exact Hhead. intros [= <- <-]. by left.
Qed.


(** X10.  What a load that returns has checked on its way: the node ids are
    pairwise distinct; the node ids and the two face tables handed to
    [_create_elements] form a valid mesh; the values have at least one
    column (column 0 is converted even when no field is imported) and a
    column for every title after the first; and the grid has points, with at
    least one row and exactly three columns. *)
Theorem load_success_requirements fld_filename name plot g g0 model g' :
  _remove_old_geometry fld_filename g = (Ok false, g0) →
  read_fluent fld_filename = Ok model →
  load_fluent_geometry fld_filename name plot g = (Ok tt, g') →
  let '(_, tris, quads, _, results0) :=
    get_filtered_data model (cart3d_fluent_remove g0) (cart3d_fluent_include g0) in
  NoDup (Fluent.node_id model) ∧
  valid_mesh (Fluent.node_id model) tris quads ∧
  (0 < shape1 results0)%nat ∧
  (length (drop 1 (Fluent.titles model)) ≤ shape1 results0)%nat ∧
  ∃ p, points (grid g') = Some p ∧ rows p ≠ [] ∧ shape1 p = 3%nat.
Proof.
  intros Hskip Hread Hload.
  destruct (load_Ok _ _ _ _ _ _ _ Hskip Hload) as (l & g1 & Hhead & Htail).
  destruct (head_box _ _ _ _ Hhead) as (xmax & ymax & zmax & _ & _ & _ & Hmax & _ & _).
  apply head_Ok in Hhead
    as (model' & out & results0 & Hread' & Hf & _ & _ & Hunits & Hnid & Htitles & _ & ->).
  rewrite Hread in Hread'. injection Hread' as <-. rewrite Hf.
  apply convert_units_Ok in Hunits as (_ & column0 & psi & _ & _ & Hset).
  apply setcol0_shape in Hset as [Hshape Hcol].
  apply tail_Ok in Htail
    as (Hnd & ugrid' & form & cases & Hcreate & Hfill & Hgrid & _ & _ & _).
  rewrite Hnid in Hnd, Hcreate. split_and!.
  - done.
  - apply checks_pass_valid. by apply create_elements_Ok in Hcreate as [Hchk _].
  - done.
  - assert (∃ out, _fill_fluent_case ∅ 1 (Fluent.node_id model) (l_element_id l) (l_region l)
                     (l_results l) (l_titles l) (l_normal l) (l_nnodes_array l) = Ok out)
      as (_ & _ & Hcols & _)%fill_fluent_case_returns by (rewrite <- Hnid; eauto).
    by rewrite <- Htitles, <- Hshape.
  - apply create_elements_Ok in Hcreate as [_ ->]. exists (l_nodes l).
    rewrite Hgrid. split; [done|].
    apply bind_Ok in Hmax as (v & Hv & Hunpack). apply unpack3_Ok in Hunpack as ->.
    apply reduce_axis0_Ok in Hv as (Hrows & Hlen & _). split; [done | by rewrite <- Hlen].
Qed.

(** X11.  In the catalog of a load that returns, the ElementID field holds
    [gui.element_ids], and the Region field and every imported field hold
    exactly [gui.nelements] values. *)
Theorem catalog_lengths fld_filename name plot g g0 g' :
  _remove_old_geometry fld_filename g = (Ok false, g0) →
  load_fluent_geometry fld_filename name plot g = (Ok tt, g') →
  ∃ form cases region,
    finished g' = Some (name, form, cases) ∧
    values_at cases 1 = Some (IntValues (element_ids g')) ∧
    values_at cases 2 = Some (IntValues region) ∧
    length region = nelements g' ∧
    ∀ k e, cases !! k = Some e → (8 ≤ k)%Z →
      ∃ column, scalar_of e.1 = Some (FloatValues column) ∧ length column = nelements g'.
Proof.
  intros Hskip Hload.
  destruct (load_Ok _ _ _ _ _ _ _ Hskip Hload) as (l & g1 & Hhead & Htail).
  apply head_Ok in Hhead
    as (model & out & results0 & _ & _ & _ & _ & _ & _ & _ & Hlen & ->).
  destruct (tail_state _ _ _ _ _ Htail) as (_ & Hne & _).
  apply tail_Ok in Htail
    as (_ & ugrid' & form & cases & _ & Hfill & _ & Hfin & _ & Heids).
  exists form, cases, (l_region l). cbn in Hne. rewrite Hne, Heids.
  destruct (catalog_fixed _ _ _ _ _ _ _ _ _ _ Hfill) as (nx & ny & nz & _ & _ & _ & Hfix).
  unfold values_at. rewrite !Hfix by lia. unfold fixed_cases.
  split_and!; [done | by simplify_map_eq | by simplify_map_eq | done |].
  intros k e Hk Hk8.
  destruct (catalog_entries _ _ _ _ _ _ _ _ _ _ k e Hfill Hk)
    as (_ & _ & _ & _ & _ & _ & [[Hrange _]|(i & title & column & -> & Ht & Hcol & ->)]);
    [lia|].
  exists column. split; [done|].
  assert (∃ out, _fill_fluent_case ∅ 1 (l_node_id l) (l_element_id l) (l_region l)
                   (l_results l) (l_titles l) (l_normal l) (l_nnodes_array l) = Ok out)
    as (_ & _ & _ & Hrows)%fill_fluent_case_returns by eauto.
  rewrite (getcol_length _ _ _ Hcol). symmetry. apply Hrows.
  intros Hnil. assert (drop 1 (l_titles l) !! i = Some title) as Hd by (by rewrite lookup_drop).
  by rewrite Hnil in Hd.
Qed.

(** X12.  A load that raises after the old geometry was cleaned up has handed
    nothing to the results browser and has left [gui.node_ids],
    [gui.element_ids] and the two region lists of the settings as they
    were. *)
Theorem load_raise_frame fld_filename name plot g g0 e g' :
  _remove_old_geometry fld_filename g = (Ok false, g0) →
  load_fluent_geometry fld_filename name plot g = (Raise e, g') →
  finished g' = finished g0 ∧
  node_ids g' = node_ids g0 ∧
  element_ids g' = element_ids g0 ∧
  cart3d_fluent_remove g' = cart3d_fluent_remove g0 ∧
  cart3d_fluent_include g' = cart3d_fluent_include g0.
Proof.
  intros Hskip Hload.
  destruct (load_Raise _ _ _ _ _ _ _ Hskip Hload) as [Hhead|(l & g1 & Hhead & Htail)].
  - destruct (head_frame _ _ _ _ Hhead) as [_ Hfin].
    destruct (head_frame_ids _ _ _ _ Hhead) as (? & ? & ? & ?). by split_and!.
  - destruct (head_frame _ _ _ _ Hhead) as [_ Hfin].
    destruct (head_frame_ids _ _ _ _ Hhead) as (Hn & He & Hr & Hi).
    destruct (tail_frame_raise _ _ _ _ _ Htail) as (Hfin' & Hn' & He' & Hr' & Hi').
    split_and!; congruence.
Qed.

(** X13.  The grid is filled before the catalog is built: when every step up
    to the packing succeeds and [_fill_fluent_case] raises, the load raises
    the same exception, and the grid already holds the new packed
    connectivity, while the results browser and [gui.node_ids] have not been
    touched. *)
Theorem catalog_failure_keeps_new_grid fld_filename name plot g g0 l g1 ugrid' e :
  _remove_old_geometry fld_filename g = (Ok false, g0) →
  load_fluent_geometry_head fld_filename g0 = (Ok l, g1) →
  NoDup (l_node_id l) →
  _create_elements (grid g1) (l_node_id l) (l_tris l) (l_quads l) = Ok ugrid' →
  _fill_fluent_case ∅ 1 (l_node_id l) (l_element_id l) (l_region l) (l_results l)
                    (l_titles l) (l_normal l) (l_nnodes_array l) = Raise e →
  ∃ g', load_fluent_geometry fld_filename name plot g = (Raise e, g') ∧
        grid g' = Modified ugrid' ∧
        cells (grid g') = Some (packed_of (l_node_id l) (l_tris l) (l_quads l)) ∧
        points (grid g') = Some (l_nodes l) ∧
        finished g' = finished g0 ∧
        node_ids g' = node_ids g0.
Proof.
  intros Hskip Hhead Hnd Hcreate Hfill.
  destruct (head_frame _ _ _ _ Hhead) as [_ Hfin].
  destruct (head_frame_ids _ _ _ _ Hhead) as (Hn & _).
  eexists. split_and!.
  - unfold load_fluent_geometry. erewrite GuiM_bind_Ok by exact Hskip. cbv iota.
    erewrite GuiM_bind_Ok by exact Hhead.
    unfold load_fluent_geometry_tail.
    erewrite GuiM_bind_Ok; last first.
    { unfold liftM. rewrite assert_decide_true; [done|]. by apply unique_check_NoDup. }
    erewrite GuiM_bind_Ok; last by unfold getsM.
    erewrite GuiM_bind_Ok; last by (unfold liftM; rewrite Hcreate).
    do 7 (erewrite GuiM_bind_Ok; last by unfold modifyM).
    apply GuiM_bind_Raise. unfold liftM. by rewrite Hfill.
  - done.
  - cbn. by apply create_elements_Ok in Hcreate as [_ ->].
  - cbn. apply create_elements_Ok in Hcreate as [_ ->]. cbn.
    by apply head_Ok in Hhead as (?&?&?&?&?&?&?&?&?&?&?& ->).
  - done.
  - done.
Qed.

End AfterLoad.

(* ===================================================================== *)
(** ** The further statements on small inputs *)
(* ===================================================================== *)

Lemma create_elements_returns_iff_valid_witness :
  ∃ ugrid', _create_elements empty_grid (Fluent.node_id mesh_2q3t) (Fluent.tris mesh_2q3t)
                             (Fluent.quads mesh_2q3t) = Ok ugrid'.
Proof.
  apply (create_elements_returns_iff_valid empty_grid (Fluent.node_id mesh_2q3t)
           (Fluent.tris mesh_2q3t) (Fluent.quads mesh_2q3t)).
  exact small_mesh_valid.
Defined.

Lemma create_elements_value_error_iff_witness :
  ∃ why, _create_elements empty_grid nodes_1_to_10 no_tris no_quads = Raise (ValueError why).
Proof.
  apply (create_elements_value_error_iff empty_grid nodes_1_to_10 no_tris no_quads).
  split; [reflexivity|]. split; [reflexivity|]. right. split; [|reflexivity].
  apply Forall_forall. decide_by_evaluation.
Defined.

Lemma create_elements_node_id_guard_witness :
  ∃ m, _create_elements empty_grid nodes_from_0 tris_with_999 no_quads
       = Raise (AssertionError (MsgInt m)) ∧
       m ∈ nodes_from_0 ∧ (m < 1)%Z ∧ ∀ x, x ∈ nodes_from_0 → (m ≤ x)%Z.
Proof.
  apply (create_elements_node_id_guard empty_grid nodes_from_0 tris_with_999 no_quads 0%Z).
  - reflexivity.
  - reflexivity.
  - decide_by_evaluation.
  - lia.
Defined.

Lemma create_elements_exceptions_witness :
  (∃ why, AssertionError (MsgIds [999]%Z) = ValueError why) ∨
  (∃ nrow ncol, AssertionError (MsgIds [999]%Z) = AssertionError (MsgShape nrow ncol)) ∨
  (∃ z, AssertionError (MsgIds [999]%Z) = AssertionError (MsgInt z)) ∨
  (∃ ids, AssertionError (MsgIds [999]%Z) = AssertionError (MsgIds ids) ∧ ids ≠ []).
Proof.
  apply (create_elements_exceptions empty_grid nodes_1_to_10 tris_with_999 no_quads).
  reflexivity.
Defined.

Lemma fill_fluent_case_returns_only_if_witness :
  (3 ≤ shape1 (Array2 3 (replicate 5 [0; 0; 1]%Q)))%nat ∧
  length [1; 2; 3; 4; 5]%Z = length (replicate 5 7%Z) ∧
  (length (drop 1 (Fluent.titles mesh_2q3t)) ≤ shape1 (Fluent.results mesh_2q3t))%nat ∧
  (drop 1 (Fluent.titles mesh_2q3t) ≠ [] →
   length [1; 2; 3; 4; 5]%Z = len2 (Fluent.results mesh_2q3t)).
Proof.
  exact (fill_fluent_case_returns_only_if _ _ _ _ _ _ _ _ _ _ small_catalog_built).
Defined.

Lemma normal_columns_before_lengths_witness :
  ∃ e, _fill_fluent_case ∅ 1 nodes_1_to_10 ten_ids [7]%Z nine_values ["ID"; "Pressure"]
                         two_column_normals (replicate 10 3%Q) = Raise e ∧
       ∀ neids nregion, e ≠ AssertionError (MsgLens neids nregion).
Proof.
  apply (normal_columns_before_lengths ∅ 1 nodes_1_to_10 ten_ids [7]%Z nine_values
           ["ID"; "Pressure"] two_column_normals (replicate 10 3%Q)).
  simpl. lia.
Defined.

(** On that input numpy's message names column 2 of an array with two
    columns. *)
Example two_column_normals_message :
  _fill_fluent_case ∅ 1 nodes_1_to_10 ten_ids [7]%Z nine_values ["ID"; "Pressure"]
                    two_column_normals (replicate 10 3%Q)
  = Raise (IndexError "index 2 is out of bounds for axis 1 with size 2").
Proof. reflexivity. Qed.

Lemma catalog_over_earlier_built :
  _fill_fluent_case earlier_cases 1 (Fluent.node_id mesh_2q3t) [1; 2; 3; 4; 5]%Z
    (replicate 5 7%Z) (Fluent.results mesh_2q3t) (Fluent.titles mesh_2q3t)
    (Array2 3 (replicate 5 [0; 0; 1]%Q)) (replicate 5 4%Q)
  = Ok (catalog_over_earlier.1, catalog_over_earlier.2).
Proof. by_evaluation. Defined.

Lemma fill_fluent_case_frame_witness :
  catalog_over_earlier.2 !! 100%Z = Some (imported_entry 1 0 "Earlier" []) ∧
  catalog_2q3t.1 = catalog_over_earlier.1 ∧
  catalog_2q3t.2 !! 3%Z = catalog_over_earlier.2 !! 3%Z.
Proof.
  destruct (fill_fluent_case_frame _ _ _ _ _ _ _ _ _ _ _ catalog_over_earlier_built)
    as (Hkept & _ & Hsame).
  destruct (Hsame _ _ _ small_catalog_built) as [Hform Hused].
  split; [|split].
  - rewrite (Hkept 100%Z); [reflexivity | simpl; lia].
  - exact Hform.
  - apply Hused. simpl. lia.
Defined.

Lemma form_indexes_cases_witness :
  length catalog_2q3t.1 = 10%nat ∧
  ∃ name res, catalog_2q3t.1 !! 9%nat = Some (FormEntry name 9 []) ∧
              catalog_2q3t.2 !! 9%Z = Some (res, (0%Z, name)).
Proof.
  destruct (form_indexes_cases _ _ _ _ _ _ _ _ _ _ _ small_catalog_built) as [Hlen Hentries].
  split; [exact Hlen|].
  destruct (Hentries 9%nat (FormEntry "Temperature" 9 []) eq_refl)
    as (name & res & Hentry & Hcase).
  injection Hentry as <-.
  exists "Temperature", res. split; [reflexivity | exact Hcase].
Defined.


Lemma load_success_requirements_witness :
  NoDup (Fluent.node_id mesh_2q3t) ∧
  ∃ p, points (grid gui_2q3t) = Some p ∧ rows p ≠ [] ∧ shape1 p = 3%nat.
Proof.
  destruct (@load_success_requirements (stand_in mesh_2q3t) "mesh.cel" "main" true
              (fresh_gui [] []) (fresh_gui [] []) mesh_2q3t gui_2q3t
              eq_refl eq_refl small_mesh_loads)
    as (Hnd & _ & _ & _ & Hpoints).
  split; [exact Hnd | exact Hpoints].
Defined.

Lemma catalog_lengths_witness :
  ∃ form cases region,
    finished gui_2q3t = Some ("main", form, cases) ∧
    values_at cases 2 = Some (IntValues region) ∧
    length region = 5%nat.
Proof.
  destruct (@catalog_lengths (stand_in mesh_2q3t) "mesh.cel" "main" true
              (fresh_gui [] []) (fresh_gui [] []) gui_2q3t eq_refl small_mesh_loads)
    as (form & cases & region & Hfin & _ & Hregion & Hlen & _).
  exists form, cases, region. split; [exact Hfin|]. split; [exact Hregion | exact Hlen].
Defined.

Lemma duplicate_mesh_raises :
  @load_fluent_geometry (stand_in mesh_duplicate_node) "mesh.cel" "main" true
                        (fresh_gui [] [])
  = (Raise (AssertionError NoMsg), gui_after_duplicate).
Proof. by_evaluation. Defined.

Lemma load_raise_frame_witness :
  finished gui_after_duplicate = None ∧ node_ids gui_after_duplicate = [].
Proof.
  destruct (@load_raise_frame (stand_in mesh_duplicate_node) "mesh.cel" "main" true
              (fresh_gui [] []) (fresh_gui [] []) (AssertionError NoMsg)
              gui_after_duplicate eq_refl duplicate_mesh_raises)
    as (Hfin & Hnodes & _).
  split; [exact Hfin | exact Hnodes].
Defined.

Lemma short_values_head :
  @load_fluent_geometry_head (stand_in mesh_short_values) "mesh.cel" (fresh_gui [] [])
  = (Ok locals_short_values, gui_short_values).
Proof. by_evaluation. Defined.

Lemma short_values_packed :
  _create_elements (grid gui_short_values) (l_node_id locals_short_values)
                   (l_tris locals_short_values) (l_quads locals_short_values)
  = Ok grid_short_values.
Proof. by_evaluation. Defined.

Lemma short_values_catalog_fails :
  _fill_fluent_case ∅ 1 (l_node_id locals_short_values) (l_element_id locals_short_values)
    (l_region locals_short_values) (l_results locals_short_values)
    (l_titles locals_short_values) (l_normal locals_short_values)
    (l_nnodes_array locals_short_values)
  = Raise (AssertionError NoMsg).
Proof. by_evaluation. Defined.

Lemma short_values_nodes_distinct : NoDup (l_node_id locals_short_values).
Proof. decide_by_evaluation. Defined.

Lemma catalog_failure_keeps_new_grid_witness :
  ∃ g', @load_fluent_geometry (stand_in mesh_short_values) "mesh.cel" "main" true
                              (fresh_gui [] []) = (Raise (AssertionError NoMsg), g') ∧
        (∃ p, cells (grid g') = Some p ∧ cell_offsets p = [4; 8; 11; 14; 17]%Z) ∧
        finished g' = None.
Proof.
  destruct (@catalog_failure_keeps_new_grid (stand_in mesh_short_values) "mesh.cel" "main"
              true (fresh_gui [] []) (fresh_gui [] []) locals_short_values
              gui_short_values grid_short_values (AssertionError NoMsg)
              eq_refl short_values_head short_values_nodes_distinct short_values_packed
              short_values_catalog_fails)
    as (g' & Hload & _ & Hcells & _ & Hfin & _).
  exists g'. split; [exact Hload|]. split; [|exact Hfin].
  eexists. split; [exact Hcells | reflexivity].
Defined.

